(** * Lowering of CIR to the LLVM dialect: patterns, passes and pipeline

    A shallow embedding of clang/lib/CIR/LowerToLLVM.cpp.  The rewrite
    patterns and the three passes are transcribed from that file; the IR
    they rewrite (operations, values, attributes, regions) and the rewriter
    they talk to are the small part of MLIR that the file uses. *)

From Stdlib Require Import ZArith Ascii String.
From stdpp Require Import gmap strings list fin_maps.

Set Default Proof Using "Type".
Set Warnings "-register-all,-clear-no-such-hyp".

(** ** The IR model *)

(** Types that occur in the lowering: builtin integers, CIR pointers, the
    memref buffers produced by the memory lowering, function types. *)
Inductive MType : Type :=
| IntegerType (width : nat)
| IndexType
| PointerType (pointee : MType)
| MemRefType (shape : list Z) (elementType : MType)
| FunctionType (inputs results : list MType).

(** [MemRefType::get(shape, elementType)]. *)
Definition MemRefType_get (shape : list Z) (elementType : MType) : MType :=
  MemRefType shape elementType.


Inductive Attribute : Type :=
| StringAttr (value : string)
| FlatSymbolRefAttr (value : string)
| IntegerAttr (ty : MType) (value : Z)
| TypeAttr (value : MType)
| UnitAttr.

Definition NamedAttribute : Type := string * Attribute.

(** A Value is a handle into the arena of values together with its fixed
    type.  Two values are the same value when their handles agree. *)
Record Value : Type := mkValue { vid : nat; vty : MType }.

(** Operations own regions, regions are sequences of blocks, blocks carry
    arguments and a sequence of operations.  [oid] is the handle of the
    operation (the [Operation *] of the source). *)
Inductive Operation : Type :=
| mkOp (oid : nat) (name : string) (operands : list Value)
       (results : list Value) (attrs : list NamedAttribute)
       (regions : Regions)
with Regions : Type :=
| RNil
| RCons (r : Blocks) (rs : Regions)
with Blocks : Type :=
| BNil
| BCons (args : list Value) (body : Ops) (bs : Blocks)
with Ops : Type :=
| ONil
| OCons (o : Operation) (os : Ops).

Scheme Operation_mind := Induction for Operation Sort Prop
  with Regions_mind := Induction for Regions Sort Prop
  with Blocks_mind := Induction for Blocks Sort Prop
  with Ops_mind := Induction for Ops Sort Prop.
Combined Scheme ir_mutind
  from Operation_mind, Regions_mind, Blocks_mind, Ops_mind.

Definition oid (op : Operation) : nat :=
  match op with mkOp i _ _ _ _ _ => i end.
Definition name (op : Operation) : string :=
  match op with mkOp _ n _ _ _ _ => n end.
Definition operands (op : Operation) : list Value :=
  match op with mkOp _ _ os _ _ _ => os end.
Definition results (op : Operation) : list Value :=
  match op with mkOp _ _ _ rs _ _ => rs end.
Definition attrs (op : Operation) : list NamedAttribute :=
  match op with mkOp _ _ _ _ a _ => a end.
Definition regions (op : Operation) : Regions :=
  match op with mkOp _ _ _ _ _ r => r end.

Definition getResultTypes (op : Operation) : list MType := vty <$> results op.

Fixpoint lookupAttr (n : string) (d : list NamedAttribute) : option Attribute :=
  match d with
  | [] => None
  | (k, a) :: d' => if String.eqb k n then Some a else lookupAttr n d'
  end.

Definition getAttr (n : string) (op : Operation) : option Attribute :=
  lookupAttr n (attrs op).

Fixpoint ops_of_list (l : list Operation) : Ops :=
  match l with
  | [] => ONil
  | o :: l' => OCons o (ops_of_list l')
  end.

Fixpoint ops_app (a b : Ops) : Ops :=
  match a with
  | ONil => b
  | OCons o a' => OCons o (ops_app a' b)
  end.

Fixpoint blocks_app (a b : Blocks) : Blocks :=
  match a with
  | BNil => b
  | BCons args body a' => BCons args body (blocks_app a' b)
  end.

(** [getRegion(i)] and its update. *)
Fixpoint getRegion (i : nat) (rs : Regions) : option Blocks :=
  match rs, i with
  | RNil, _ => None
  | RCons r _, O => Some r
  | RCons _ rs', S i' => getRegion i' rs'
  end.

Fixpoint setRegion (i : nat) (r : Blocks) (rs : Regions) : Regions :=
  match rs, i with
  | RNil, _ => RNil
  | RCons _ rs', O => RCons r rs'
  | RCons r0 rs', S i' => RCons r0 (setRegion i' r rs')
  end.

Inductive LogicalResult : Type := success | failure.

Definition failed (r : LogicalResult) : bool :=
  match r with failure => true | success => false end.

(** ** Symbol, operation names and accessors used by the patterns *)

Module SymbolTable.
Definition getSymbolAttrName : string := "sym_name".
End SymbolTable.

Module SymbolRefAttr.
  (** [SymbolRefAttr::get(Operation *symbol)] is the convenience getter for
      an operation that is itself a symbol: it reads the operation's own
      [sym_name] string attribute and builds a reference to that name.  The
      getter asserts that the attribute is there ([None] here). *)
Definition get (symbol : Operation) : option Attribute :=
    match getAttr SymbolTable.getSymbolAttrName symbol with
    | Some (StringAttr symName) => Some (FlatSymbolRefAttr symName)
    | _ => None
    end.
End SymbolRefAttr.

(** Accessors generated for the CIR operations.  An accessor of a required
    attribute asserts its presence and kind; an optional one answers null. *)
Module cir.
Module FuncOp.
Definition getOperationName : string := "cir.func".
Definition getName (op : Operation) : option string :=
      match getAttr SymbolTable.getSymbolAttrName op with
      | Some (StringAttr s) => Some s
      | _ => None
      end.
Definition getFunctionType (op : Operation) : option MType :=
      match getAttr "function_type" op with
      | Some (TypeAttr (FunctionType i r)) => Some (FunctionType i r)
      | _ => None
      end.
Definition body (op : Operation) : option Blocks := getRegion 0 (regions op).
End FuncOp.
Module ReturnOp.
Definition getOperationName : string := "cir.return".
End ReturnOp.
Module CallOp.
Definition getOperationName : string := "cir.call".
Definition getCalleeAttr (op : Operation) : option Attribute :=
      match getAttr "callee" op with
      | Some (FlatSymbolRefAttr s) => Some (FlatSymbolRefAttr s)
      | _ => None
      end.
Definition getArgOperands (op : Operation) : list Value := operands op.
End CallOp.
Module AllocaOp.
Definition getOperationName : string := "cir.alloca".
Definition type (op : Operation) : option MType :=
      match getAttr "type" op with
      | Some (TypeAttr t) => Some t
      | _ => None
      end.
Definition alignmentAttr (op : Operation) : option Attribute :=
      match getAttr "alignment" op with
      | Some (IntegerAttr t v) => Some (IntegerAttr t v)
      | _ => None
      end.
End AllocaOp.
Module LoadOp.
Definition getOperationName : string := "cir.load".
End LoadOp.
Module StoreOp.
Definition getOperationName : string := "cir.store".
End StoreOp.
Module ConstantOp.
Definition getOperationName : string := "cir.cst".
Definition getType (op : Operation) : option MType :=
      vty <$> head (results op).
Definition value (op : Operation) : option Attribute := getAttr "value" op.
End ConstantOp.
End cir.

(** ** Builders of the destination dialects

    What a builder hands to the rewriter: the name of the operation to
    create, its operands, the types of its results, its attributes and its
    regions. *)
Record OperationState : Type := mkState {
  osName : string;
  osOperands : list Value;
  osTypes : list MType;
  osAttrs : list NamedAttribute;
  osRegions : Regions
}.

Module func.
Module ReturnOp.
Definition getOperationName : string := "func.return".
    (** Modelled from the spec: the builder of the destination return is
        declared outside this file; the return keeps "operand count, order,
        and types exactly". *)
Definition build (resultTypes : list MType) (operands : list Value)
      : OperationState :=
      mkState getOperationName operands resultTypes [] RNil.
End ReturnOp.
Module CallOp.
Definition getOperationName : string := "func.call".
    (** Modelled from the spec: the builder of the destination call is
        declared outside this file; it stores the symbol it is given as the
        callee, takes the arguments in the order given and has one result
        per result type. *)
Definition build (callee : Attribute) (results : list MType)
        (operands : list Value) : OperationState :=
      mkState getOperationName operands results [("callee", callee)] RNil.
End CallOp.
Module FuncOp.
Definition getOperationName : string := "func.func".
    (** Modelled from the spec: the builder of the destination function is
        declared outside this file; the function carries the symbol name
        and the function type it is given and starts with one empty body
        region. *)
Definition build (name : string) (type : MType) : OperationState :=
      mkState getOperationName [] []
        [(SymbolTable.getSymbolAttrName, StringAttr name);
         ("function_type", TypeAttr type)]
        (RCons BNil RNil).
End FuncOp.
End func.

Module memref.
Module AllocaOp.
Definition getOperationName : string := "memref.alloca".
    (** Modelled from the spec: the builder of the buffer allocation is
        declared outside this file; the allocation has the buffer type it
        is given as its single result and records the alignment when one
        is given. *)
Definition build (memrefType : MType) (alignment : option Attribute)
      : OperationState :=
      mkState getOperationName [] [memrefType]
        (match alignment with
         | Some a => [("alignment", a)]
         | None => []
         end) RNil.
End AllocaOp.
Module LoadOp.
Definition getOperationName : string := "memref.load".
    (** Modelled from the spec: the builder of the buffer load is declared
        outside this file; the buffer is the operand and the result has the
        element type of the buffer, so the operand has to be a buffer. *)
Definition build (memref : Value) : option OperationState :=
      match vty memref with
      | MemRefType _ elementType =>
          Some (mkState getOperationName [memref] [elementType] [] RNil)
      | _ => None
      end.
End LoadOp.
Module StoreOp.
Definition getOperationName : string := "memref.store".
    (** Modelled from the spec: the builder of the buffer store is declared
        outside this file; "value then address". *)
Definition build (valueToStore memref : Value) : OperationState :=
      mkState getOperationName [valueToStore; memref] [] [] RNil.
End StoreOp.
End memref.

Module arith.
Module ConstantOp.
Definition getOperationName : string := "arith.constant".
    (** Modelled from the spec: the builder of the destination constant is
        declared outside this file; it keeps "the literal value and type
        bit-for-bit". *)
Definition build (type : MType) (value : Attribute) : OperationState :=
      mkState getOperationName [] [type] [("value", value)] RNil.
End ConstantOp.
End arith.

(** ** The pattern rewriter

    A pattern runs against a rewriter that allocates the handles of the
    operations and values it creates, collects the operations inserted in
    front of the matched operation and records the values that replace the
    results of the matched operation.  An assertion that fails inside a
    pattern ends the run: [None]. *)
Record RewriterState : Type := mkRewriter {
  nextValue : nat;
  nextOp : nat;
  inserted : list Operation;
  replacement : option (list Value)
}.

Definition PatternRewriter (A : Type) : Type :=
  RewriterState → option (A * RewriterState).

#[export] Instance PatternRewriter_ret : MRet PatternRewriter :=
  λ A a rw, Some (a, rw).
#[export] Instance PatternRewriter_bind : MBind PatternRewriter :=
  λ A B f m rw,
    match m rw with
    | Some (a, rw') => f a rw'
    | None => None
    end.

(** An assertion on a value that may be absent. *)
Definition asserted {A} (o : option A) : PatternRewriter A :=
  λ rw, match o with Some a => Some (a, rw) | None => None end.

Definition freshResults (base : nat) (types : list MType) : list Value :=
  imap (λ i t, mkValue (base + i) t) types.

(** [rewriter.create<OpTy>(...)]: a new operation with new result values,
    inserted in front of the matched operation. *)
Definition create (s : OperationState) : PatternRewriter Operation :=
  λ rw,
    let op := mkOp (nextOp rw) (osName s) (osOperands s)
                (freshResults (nextValue rw) (osTypes s))
                (osAttrs s) (osRegions s) in
    Some (op, mkRewriter (nextValue rw + length (osTypes s)) (S (nextOp rw))
                (inserted rw ++ [op]) (replacement rw)).

(** [rewriter.replaceOp(op, newValues)]: one replacement value per result
    of [op] (asserted). *)
Definition replaceOp (op : Operation) (newValues : list Value)
  : PatternRewriter unit :=
  λ rw,
    if Nat.eqb (length (results op)) (length newValues)
    then Some (tt, mkRewriter (nextValue rw) (nextOp rw) (inserted rw)
                     (Some newValues))
    else None.

(** [rewriter.replaceOpWithNewOp<OpTy>(op, ...)]. *)
Definition replaceOpWithNewOp (op : Operation) (s : OperationState)
  : PatternRewriter Operation :=
  newOp ← create s;
  _ ← replaceOp op (results newOp);
  mret newOp.

(** ** Cloning a region with a value mapping *)

(** [BlockAndValueMapping]: from the handle of an original value to the
    value that stands for it in the copy. *)
Definition lookupOrDefault (mapper : gmap nat Value) (v : Value) : Value :=
  default v (mapper !! vid v).

(** Fresh copies of the values [vs], with their types, from handle [base]
    on, and the mapping extended by them in order. *)
Definition cloneValues (base : nat) (vs : list Value) : list Value :=
  imap (λ i v, mkValue (base + i) (vty v)) vs.

Fixpoint mapValues (vs vs' : list Value) (mapper : gmap nat Value)
  : gmap nat Value :=
  match vs, vs' with
  | v :: vs0, v' :: vs0' => mapValues vs0 vs0' (<[vid v := v']> mapper)
  | _, _ => mapper
  end.

(** The state threaded through a clone: the mapping and the two handle
    allocators. *)
Record CloneState : Type := mkClone {
  csMapper : gmap nat Value;
  csNextValue : nat;
  csNextOp : nat
}.

(** Modelled from the spec: [Region::cloneInto] and [Operation::clone] are
    declared outside this file.  "An explicit old-handle→new-handle map
    built incrementally while cloning in original block order, applied to
    every operand reference during the clone", "in one traversal": the
    arguments of a block are copied and mapped before its operations, the
    operands of an operation are looked up in the mapping as it stands, the
    regions of the operation are cloned, and its results are copied and
    mapped. *)
Fixpoint Operation_clone (op : Operation) (st : CloneState)
  : Operation * CloneState :=
  match op with
  | mkOp _ n opnds res ats rs =>
      let opnds' := lookupOrDefault (csMapper st) <$> opnds in
      let '(rs', st1) :=
        Regions_clone rs (mkClone (csMapper st) (csNextValue st)
                            (S (csNextOp st))) in
      let res' := cloneValues (csNextValue st1) res in
      (mkOp (csNextOp st) n opnds' res' ats rs',
       mkClone (mapValues res res' (csMapper st1))
         (csNextValue st1 + length res) (csNextOp st1))
  end
with Regions_clone (rs : Regions) (st : CloneState) : Regions * CloneState :=
  match rs with
  | RNil => (RNil, st)
  | RCons r rs0 =>
      let '(r', st1) := Blocks_clone r st in
      let '(rs0', st2) := Regions_clone rs0 st1 in
      (RCons r' rs0', st2)
  end
with Blocks_clone (bs : Blocks) (st : CloneState) : Blocks * CloneState :=
  match bs with
  | BNil => (BNil, st)
  | BCons args body bs0 =>
      let args' := cloneValues (csNextValue st) args in
      let '(body', st1) :=
        Ops_clone body (mkClone (mapValues args args' (csMapper st))
                          (csNextValue st + length args) (csNextOp st)) in
      let '(bs0', st2) := Blocks_clone bs0 st1 in
      (BCons args' body' bs0', st2)
  end
with Ops_clone (os : Ops) (st : CloneState) : Ops * CloneState :=
  match os with
  | ONil => (ONil, st)
  | OCons o os0 =>
      let '(o', st1) := Operation_clone o st in
      let '(os0', st2) := Ops_clone os0 st1 in
      (OCons o' os0', st2)
  end.

(** A region reached through the operation that owns it: the operation
    just created by the rewriter and the index of the region. *)
Record RegionRef : Type := mkRegionRef { rrOwner : nat; rrIndex : nat }.

Definition getBody (fn : Operation) : RegionRef := mkRegionRef (oid fn) 0.

Definition appendToRegion (i : nat) (bs : Blocks) (op : Operation) : Operation :=
  match op with
  | mkOp o n opnds res ats rs =>
      match getRegion i rs with
      | Some r => mkOp o n opnds res ats (setRegion i (blocks_app r bs) rs)
      | None => op
      end
  end.

(** [src.cloneInto(&dst, mapper)]: the copies of the blocks of [src] are
    appended to the region [dst] of the operation created before; the
    mapping is updated in place. *)
Definition Region_cloneInto (src : Blocks) (dst : RegionRef)
    (mapper : gmap nat Value) : PatternRewriter (gmap nat Value) :=
  λ rw,
    let '(bs', st) := Blocks_clone src (mkClone mapper (nextValue rw) (nextOp rw)) in
    Some (csMapper st,
          mkRewriter (csNextValue st) (csNextOp st)
            ((λ op, if Nat.eqb (oid op) (rrOwner dst)
                    then appendToRegion (rrIndex dst) bs' op else op)
               <$> inserted rw)
            (replacement rw)).

(** ** The rewrite patterns of LowerToLLVM.cpp *)

Module CIRReturnLowering.
Definition matchAndRewrite (op : Operation) : PatternRewriter LogicalResult :=
    _ ← replaceOpWithNewOp op
          (func.ReturnOp.build (getResultTypes op) (operands op));
    mret success.
End CIRReturnLowering.

Module CIRCallLowering.
Definition matchAndRewrite (op : Operation) : PatternRewriter LogicalResult :=
    callee ← asserted (SymbolRefAttr.get op);
    _ ← replaceOpWithNewOp op
          (func.CallOp.build callee (getResultTypes op)
             (cir.CallOp.getArgOperands op));
    mret success.
End CIRCallLowering.

Module CIRAllocaLowering.
Definition matchAndRewrite (op : Operation) : PatternRewriter LogicalResult :=
    elementType ← asserted (cir.AllocaOp.type op);
    let ty := MemRefType_get [] elementType in
    _ ← replaceOpWithNewOp op
          (memref.AllocaOp.build ty (cir.AllocaOp.alignmentAttr op));
    mret success.
End CIRAllocaLowering.

Module CIRLoadLowering.
Definition matchAndRewrite (op : Operation) (operands : list Value)
    : PatternRewriter LogicalResult :=
    addr ← asserted (operands !! 0);
    s ← asserted (memref.LoadOp.build addr);
    _ ← replaceOpWithNewOp op s;
    mret success.
End CIRLoadLowering.

Module CIRStoreLowering.
Definition matchAndRewrite (op : Operation) (operands : list Value)
    : PatternRewriter LogicalResult :=
    value ← asserted (operands !! 0);
    addr ← asserted (operands !! 1);
    _ ← replaceOpWithNewOp op (memref.StoreOp.build value addr);
    mret success.
End CIRStoreLowering.

Module CIRConstantLowering.
Definition matchAndRewrite (op : Operation) : PatternRewriter LogicalResult :=
    type ← asserted (cir.ConstantOp.getType op);
    value ← asserted (cir.ConstantOp.value op);
    _ ← replaceOpWithNewOp op (arith.ConstantOp.build type value);
    mret success.
End CIRConstantLowering.

Module CIRFuncLowering.
Definition matchAndRewrite (op : Operation) : PatternRewriter LogicalResult :=
    name ← asserted (cir.FuncOp.getName op);
    type ← asserted (cir.FuncOp.getFunctionType op);
    fn ← replaceOpWithNewOp op (func.FuncOp.build name type);
    srcRegion ← asserted (cir.FuncOp.body op);
    let dstRegion := getBody fn in
    let mapper : gmap nat Value := ∅ in
    _ ← Region_cloneInto srcRegion dstRegion mapper;
    mret success.
End CIRFuncLowering.

(** A registered pattern: the operation name it is rooted at, its benefit
    and its rewrite.  A conversion pattern is handed the operands of the
    operation as they stand after the rewrites committed so far; a plain
    rewrite pattern only looks at the operation. *)
Record RewritePattern : Type := mkPattern {
  getDebugName : string;
  getRootKind : string;
  getBenefit : nat;
  matchAndRewrite : Operation → list Value → PatternRewriter LogicalResult
}.

Definition OpRewritePattern (debugName rootName : string)
    (rewrite : Operation → PatternRewriter LogicalResult) : RewritePattern :=
  mkPattern debugName rootName 1 (λ op _, rewrite op).

Definition ConversionPattern (debugName rootName : string) (benefit : nat)
    (rewrite : Operation → list Value → PatternRewriter LogicalResult)
  : RewritePattern :=
  mkPattern debugName rootName benefit rewrite.

Definition CIRReturnLowering : RewritePattern :=
  OpRewritePattern "CIRReturnLowering" cir.ReturnOp.getOperationName
    CIRReturnLowering.matchAndRewrite.
Definition CIRCallLowering : RewritePattern :=
  OpRewritePattern "CIRCallLowering" cir.CallOp.getOperationName
    CIRCallLowering.matchAndRewrite.
Definition CIRAllocaLowering : RewritePattern :=
  OpRewritePattern "CIRAllocaLowering" cir.AllocaOp.getOperationName
    CIRAllocaLowering.matchAndRewrite.
Definition CIRLoadLowering : RewritePattern :=
  ConversionPattern "CIRLoadLowering" cir.LoadOp.getOperationName 1
    CIRLoadLowering.matchAndRewrite.
Definition CIRStoreLowering : RewritePattern :=
  ConversionPattern "CIRStoreLowering" cir.StoreOp.getOperationName 1
    CIRStoreLowering.matchAndRewrite.
Definition CIRConstantLowering : RewritePattern :=
  OpRewritePattern "CIRConstantLowering" cir.ConstantOp.getOperationName
    CIRConstantLowering.matchAndRewrite.
Definition CIRFuncLowering : RewritePattern :=
  OpRewritePattern "CIRFuncLowering" cir.FuncOp.getOperationName
    CIRFuncLowering.matchAndRewrite.

(** [patterns.add<...>(ctx)]: registration order is kept. *)
Definition RewritePatternSet : Type := list RewritePattern.
Definition add (new : list RewritePattern) (patterns : RewritePatternSet)
  : RewritePatternSet := patterns ++ new.

Definition populateCIRToMemRefConversionPatterns
    (patterns : RewritePatternSet) : RewritePatternSet :=
  add [CIRAllocaLowering; CIRLoadLowering; CIRStoreLowering;
       CIRConstantLowering] patterns.

(** ** Conversion targets *)

Inductive LegalityRule : Type :=
| AlwaysLegal
| AlwaysIllegal
| LegalIf (predicate : Operation → bool).

(** "A mapping from operation-kind identifier to a legality rule", with the
    rules given for whole dialects next to it. *)
Record ConversionTarget : Type := mkTarget {
  opActions : gmap string LegalityRule;
  dialectActions : gmap string LegalityRule
}.

Definition emptyTarget : ConversionTarget := mkTarget ∅ ∅.

Definition setOpAction (rule : LegalityRule) (ops : list string)
    (t : ConversionTarget) : ConversionTarget :=
  mkTarget (foldl (λ m n, <[n := rule]> m) (opActions t) ops)
    (dialectActions t).

Definition addLegalOp := setOpAction AlwaysLegal.
Definition addIllegalOp := setOpAction AlwaysIllegal.

Definition addLegalDialect (dialects : list string) (t : ConversionTarget)
  : ConversionTarget :=
  mkTarget (opActions t)
    (foldl (λ m n, <[n := AlwaysLegal]> m) (dialectActions t) dialects).

(** The dialect of an operation name is what comes before the first dot. *)
Fixpoint getDialectNamespace (n : string) : string :=
  match n with
  | EmptyString => EmptyString
  | String c n' =>
      if Ascii.eqb c "."%char then EmptyString
      else String c (getDialectNamespace n')
  end.

(** [classify]: the rule for the operation itself wins over the rule for
    its dialect; an operation with neither is unknown to the target. *)
Definition classify (t : ConversionTarget) (op : Operation)
  : option LegalityRule :=
  match opActions t !! name op with
  | Some r => Some r
  | None => dialectActions t !! getDialectNamespace (name op)
  end.

Definition isLegal (t : ConversionTarget) (op : Operation) : bool :=
  match classify t op with
  | Some AlwaysLegal => true
  | Some (LegalIf p) => p op
  | _ => false
  end.

Definition isIllegal (t : ConversionTarget) (op : Operation) : bool :=
  match classify t op with
  | Some AlwaysIllegal => true
  | Some (LegalIf p) => negb (p op)
  | _ => false
  end.

Module ModuleOp.
Definition getOperationName : string := "builtin.module".
End ModuleOp.

(** ** Traversals of the IR tree *)

(** Pre-order over the region tree: an operation, then what it owns. *)
Fixpoint Operation_walk (op : Operation) : list Operation :=
  op :: match op with mkOp _ _ _ _ _ rs => Regions_walk rs end
with Regions_walk (rs : Regions) : list Operation :=
  match rs with
  | RNil => []
  | RCons r rs0 => Blocks_walk r ++ Regions_walk rs0
  end
with Blocks_walk (bs : Blocks) : list Operation :=
  match bs with
  | BNil => []
  | BCons _ body bs0 => Ops_walk body ++ Blocks_walk bs0
  end
with Ops_walk (os : Ops) : list Operation :=
  match os with
  | ONil => []
  | OCons o os0 => Operation_walk o ++ Ops_walk os0
  end.

(** The occurrences of values in program order: the operands of an
    operation are uses; block arguments and results are definitions.  The
    order is the order of the clone above. *)
Inductive Event : Type :=
| Use (v : Value)
| Def (v : Value).

Definition eventValue (e : Event) : Value :=
  match e with Use v => v | Def v => v end.

Fixpoint Operation_events (op : Operation) : list Event :=
  match op with
  | mkOp _ _ opnds res _ rs =>
      (Use <$> opnds) ++ Regions_events rs ++ (Def <$> res)
  end
with Regions_events (rs : Regions) : list Event :=
  match rs with
  | RNil => []
  | RCons r rs0 => Blocks_events r ++ Regions_events rs0
  end
with Blocks_events (bs : Blocks) : list Event :=
  match bs with
  | BNil => []
  | BCons args body bs0 =>
      (Def <$> args) ++ Ops_events body ++ Blocks_events bs0
  end
with Ops_events (os : Ops) : list Event :=
  match os with
  | ONil => []
  | OCons o os0 => Operation_events o ++ Ops_events os0
  end.

Definition defsOf (es : list Event) : list Value :=
  omap (λ e, match e with Def v => Some v | Use _ => None end) es.

(** The shape of a piece of IR: everything but the handles.  A defined
    value keeps its type; an operand is a reference and keeps its place. *)
Definition eraseValue (v : Value) : Value := mkValue 0 (vty v).
Definition eraseOperand (v : Value) : Value := mkValue 0 IndexType.

Fixpoint Operation_erase (op : Operation) : Operation :=
  match op with
  | mkOp _ n opnds res ats rs =>
      mkOp 0 n (eraseOperand <$> opnds) (eraseValue <$> res) ats
        (Regions_erase rs)
  end
with Regions_erase (rs : Regions) : Regions :=
  match rs with
  | RNil => RNil
  | RCons r rs0 => RCons (Blocks_erase r) (Regions_erase rs0)
  end
with Blocks_erase (bs : Blocks) : Blocks :=
  match bs with
  | BNil => BNil
  | BCons args body bs0 =>
      BCons (eraseValue <$> args) (Ops_erase body) (Blocks_erase bs0)
  end
with Ops_erase (os : Ops) : Ops :=
  match os with
  | ONil => ONil
  | OCons o os0 => OCons (Operation_erase o) (Ops_erase os0)
  end.

(** The operation with handle [k] gives way to [new] in its block; with
    [keep] the operation stays behind what was inserted. *)
Fixpoint Operation_subst (k : nat) (new : Ops) (keep : bool) (op : Operation)
  : Operation :=
  match op with
  | mkOp i n opnds res ats rs =>
      mkOp i n opnds res ats (Regions_subst k new keep rs)
  end
with Regions_subst (k : nat) (new : Ops) (keep : bool) (rs : Regions)
  : Regions :=
  match rs with
  | RNil => RNil
  | RCons r rs0 =>
      RCons (Blocks_subst k new keep r) (Regions_subst k new keep rs0)
  end
with Blocks_subst (k : nat) (new : Ops) (keep : bool) (bs : Blocks) : Blocks :=
  match bs with
  | BNil => BNil
  | BCons args body bs0 =>
      BCons args (Ops_subst k new keep body) (Blocks_subst k new keep bs0)
  end
with Ops_subst (k : nat) (new : Ops) (keep : bool) (os : Ops) : Ops :=
  match os with
  | ONil => ONil
  | OCons o os0 =>
      if Nat.eqb (oid o) k
      then ops_app new
             (if keep then OCons o (Ops_subst k new keep os0)
              else Ops_subst k new keep os0)
      else OCons (Operation_subst k new keep o) (Ops_subst k new keep os0)
  end.

(** Every use of a mapped value is rewired to the value it is mapped to. *)
Fixpoint Operation_replaceUses (m : gmap nat Value) (op : Operation)
  : Operation :=
  match op with
  | mkOp i n opnds res ats rs =>
      mkOp i n (lookupOrDefault m <$> opnds) res ats
        (Regions_replaceUses m rs)
  end
with Regions_replaceUses (m : gmap nat Value) (rs : Regions) : Regions :=
  match rs with
  | RNil => RNil
  | RCons r rs0 =>
      RCons (Blocks_replaceUses m r) (Regions_replaceUses m rs0)
  end
with Blocks_replaceUses (m : gmap nat Value) (bs : Blocks) : Blocks :=
  match bs with
  | BNil => BNil
  | BCons args body bs0 =>
      BCons args (Ops_replaceUses m body) (Blocks_replaceUses m bs0)
  end
with Ops_replaceUses (m : gmap nat Value) (os : Ops) : Ops :=
  match os with
  | ONil => ONil
  | OCons o os0 =>
      OCons (Operation_replaceUses m o) (Ops_replaceUses m os0)
  end.

Definition lookupOp (k : nat) (m : Operation) : option Operation :=
  find (λ op, Nat.eqb (oid op) k) (Operation_walk m).

(** The first handles not used by a module. *)
Definition freshValue (m : Operation) : nat :=
  S (list_max (vid ∘ eventValue <$> Operation_events m)).
Definition freshOp (m : Operation) : nat :=
  S (list_max (oid <$> Operation_walk m)).

(** ** The conversion driver *)

Inductive ConversionMode : Type := Partial | Full.

(** One committed pattern application: the matched operation, what was
    inserted in front of it, its results and the values that replace
    them. *)
Record Rewrite : Type := mkRewrite {
  rwRoot : nat;
  rwInserted : list Operation;
  rwReplaced : list Value;
  rwReplacement : option (list Value)
}.

(** Committing a rewrite: "new Operations are inserted, the original
    removed, and every use of its old result Values is rewired to the new
    Values". *)
Definition applyRewrite (r : Rewrite) (m : Operation) : Operation :=
  match rwReplacement r with
  | Some newValues =>
      Operation_replaceUses (mapValues (rwReplaced r) newValues ∅)
        (Operation_subst (rwRoot r) (ops_of_list (rwInserted r)) false m)
  | None => Operation_subst (rwRoot r) (ops_of_list (rwInserted r)) true m
  end.

Record DriverState : Type := mkDriver {
  dsModule : Operation;
  dsNextValue : nat;
  dsNextOp : nat;
  dsRewrites : list Rewrite;
  dsUnresolved : list nat
}.

(** What a driving run reports: its verdict, the module as the run leaves
    it, the rewrites it committed and the operations it found illegal at
    the end. *)
Record ConversionOutcome : Type := mkOutcome {
  coResult : LogicalResult;
  coModule : Operation;
  coRewrites : list Rewrite;
  coIllegal : list Operation
}.

(** "Descending benefit order", "ties broken by registration order". *)
Fixpoint insertByBenefit (p : RewritePattern) (ps : list RewritePattern)
  : list RewritePattern :=
  match ps with
  | [] => [p]
  | q :: ps' =>
      if Nat.ltb (getBenefit q) (getBenefit p) then p :: q :: ps'
      else q :: insertByBenefit p ps'
  end.

Definition sortByBenefit (ps : list RewritePattern) : list RewritePattern :=
  foldl (λ acc p, insertByBenefit p acc) [] ps.

(** The first pattern rooted at the operation that reports success wins.
    What a declining pattern emitted is dropped with its rewriter. *)
Fixpoint tryPatterns (ps : list RewritePattern) (op : Operation)
    (nv no : nat) : option (option RewriterState) :=
  match ps with
  | [] => Some None
  | p :: ps' =>
      if String.eqb (getRootKind p) (name op) then
        match matchAndRewrite p op (operands op) (mkRewriter nv no [] None) with
        | None => None
        | Some (success, rw) => Some (Some rw)
        | Some (failure, _) => tryPatterns ps' op nv no
        end
      else tryPatterns ps' op nv no
  end.

(** Steps 2 to 4 for the operation with handle [k]; answers the handles to
    push onto the worklist. *)
Definition legalizeOne (mode : ConversionMode) (target : ConversionTarget)
    (patterns : list RewritePattern) (k : nat) (st : DriverState)
  : option (list nat * DriverState) :=
  match lookupOp k (dsModule st) with
  | None => Some ([], st)
  | Some op =>
      if isLegal target op then Some ([], st)
      else
        match tryPatterns patterns op (dsNextValue st) (dsNextOp st) with
        | None => None
        | Some None =>
            Some ([], match mode with
                      | Partial => st
                      | Full => mkDriver (dsModule st) (dsNextValue st)
                                  (dsNextOp st) (dsRewrites st)
                                  (dsUnresolved st ++ [k])
                      end)
        | Some (Some rw) =>
            let r := mkRewrite k (inserted rw) (results op) (replacement rw) in
            Some (oid <$> Ops_walk (ops_of_list (inserted rw)),
                  mkDriver (applyRewrite r (dsModule st)) (nextValue rw)
                    (nextOp rw) (dsRewrites st ++ [r]) (dsUnresolved st))
        end
  end.

(** Step 5: until the worklist is empty.  A run that has not emptied its
    worklist after [fuel] pops has no result. *)
Fixpoint drive (fuel : nat) (mode : ConversionMode)
    (target : ConversionTarget) (patterns : list RewritePattern)
    (worklist : list nat) (st : DriverState) : option DriverState :=
  match worklist with
  | [] => Some st
  | k :: worklist' =>
      match fuel with
      | O => None
      | S fuel' =>
          match legalizeOne mode target patterns k st with
          | None => None
          | Some (new, st') =>
              drive fuel' mode target patterns (new ++ worklist') st'
          end
      end
  end.

(** Modelled from the spec: [applyPartialConversion] and
    [applyFullConversion] are declared outside this file.  Section 4.3: the
    worklist is seeded with all operations of the module in pre-order; a
    popped operation that the target classifies legal is skipped; otherwise
    the patterns are tried in descending benefit order and the first match
    is committed, the inserted operations being pushed onto the worklist;
    an illegal operation without a matching pattern is left (partial mode)
    or recorded (full mode).  The final check of full mode scans the module
    once more and fails the run on any operation that is still not legal;
    partial mode fails on operations explicitly marked illegal that are
    still there.  Nothing is rolled back at the end of a run. *)
Definition applyConversion (mode : ConversionMode) (fuel : nat)
    (m : Operation) (target : ConversionTarget)
    (patterns : list RewritePattern) : option ConversionOutcome :=
  match drive fuel mode target (sortByBenefit patterns)
          (oid <$> Operation_walk m)
          (mkDriver m (freshValue m) (freshOp m) [] []) with
  | None => None
  | Some st =>
      let remaining :=
        List.filter (λ op, match mode with
                           | Full => negb (isLegal target op)
                           | Partial => isIllegal target op
                           end) (Operation_walk (dsModule st)) in
      Some (mkOutcome
              (match remaining with [] => success | _ => failure end)
              (dsModule st) (dsRewrites st) remaining)
  end.

(** The two entry points of the driver, as the passes see them. *)
Record ConversionDriver : Type := mkConversionDriver {
  applyPartialConversion :
    Operation → ConversionTarget → RewritePatternSet → option ConversionOutcome;
  applyFullConversion :
    Operation → ConversionTarget → RewritePatternSet → option ConversionOutcome
}.

Definition specDriver (fuel : nat) : ConversionDriver :=
  mkConversionDriver (applyConversion Partial fuel) (applyConversion Full fuel).

(** ** Passes *)

(** One call of a pass into the driver. *)
Record DriverCall : Type := mkCall {
  dcMode : ConversionMode;
  dcTarget : ConversionTarget;
  dcPatterns : RewritePatternSet;
  dcInput : Operation;
  dcOutcome : ConversionOutcome
}.

(** A pass runs on the module of the pass manager, which it mutates in
    place, may signal failure and goes on after doing so. *)
Record PassState : Type := mkPassState {
  psModule : Operation;
  psFailed : bool;
  psCalls : list DriverCall
}.

Definition PassM (A : Type) : Type := PassState → option (A * PassState).

#[export] Instance PassM_ret : MRet PassM := λ A a st, Some (a, st).
#[export] Instance PassM_bind : MBind PassM :=
  λ A B f m st,
    match m st with
    | Some (a, st') => f a st'
    | None => None
    end.

(** The handle [getOperation()] answers: the one module the pass runs on. *)
Inductive ModuleRef : Type := TheModule.

Definition getOperation : PassM ModuleRef := λ st, Some (TheModule, st).

Definition signalPassFailure : PassM unit :=
  λ st, Some (tt, mkPassState (psModule st) true (psCalls st)).

Definition callDriver (mode : ConversionMode)
    (run : Operation → ConversionTarget → RewritePatternSet →
           option ConversionOutcome)
    (module : ModuleRef) (target : ConversionTarget)
    (patterns : RewritePatternSet) : PassM LogicalResult :=
  λ st,
    match run (psModule st) target patterns with
    | None => None
    | Some out =>
        Some (coResult out,
              mkPassState (coModule out) (psFailed st)
                (psCalls st ++ [mkCall mode target patterns (psModule st) out]))
    end.

Record Pass : Type := mkPass {
  getArgument : string;
  getDependentDialects : list string;
  runOnOperation : PassM unit
}.

Section Passes.
Context (driver : ConversionDriver).

  (** What LowerToLLVM.cpp takes from the conversion libraries: the target
      that already knows the LLVM dialect, the type converter and the
      pattern sets of the standard lowerings. *)
Context (LLVMConversionTarget : ConversionTarget).
Context {LLVMTypeConverter : Type} (typeConverter : LLVMTypeConverter).
Context (populateAffineToStdConversionPatterns
           populateSCFToControlFlowConversionPatterns
             : RewritePatternSet → RewritePatternSet).
Context (populateArithmeticToLLVMConversionPatterns
           populateMemRefToLLVMConversionPatterns
           populateFuncToLLVMConversionPatterns
             : LLVMTypeConverter → RewritePatternSet → RewritePatternSet).

Definition ConvertCIRToLLVMPass_runOnOperation : PassM unit :=
    let target := LLVMConversionTarget in
    let target := addLegalOp [ModuleOp.getOperationName] target in
    let patterns : RewritePatternSet := [] in
    let patterns := populateAffineToStdConversionPatterns patterns in
    let patterns :=
      populateArithmeticToLLVMConversionPatterns typeConverter patterns in
    let patterns := populateSCFToControlFlowConversionPatterns patterns in
    let patterns :=
      populateMemRefToLLVMConversionPatterns typeConverter patterns in
    let patterns :=
      populateFuncToLLVMConversionPatterns typeConverter patterns in
    module ← getOperation;
    r ← callDriver Full (applyFullConversion driver) module target patterns;
    if failed r then signalPassFailure else mret tt.

Definition ConvertCIRToMemRefPass_runOnOperation : PassM unit :=
    let target := emptyTarget in
    let target := addLegalOp [ModuleOp.getOperationName] target in
    let target := addLegalDialect ["affine"; "arith"; "memref"; "func"] target in
    let patterns : RewritePatternSet := [] in
    let patterns := populateCIRToMemRefConversionPatterns patterns in
    module ← getOperation;
    r ← callDriver Partial (applyPartialConversion driver) module target
          patterns;
    if failed r then signalPassFailure else mret tt.

Definition ConvertCIRToFuncPass_runOnOperation : PassM unit :=
    let fnTarget := emptyTarget in
    let fnTarget :=
      addLegalOp [ModuleOp.getOperationName; func.FuncOp.getOperationName]
        fnTarget in
    let fnTarget := addIllegalOp [cir.FuncOp.getOperationName] fnTarget in
    let fnPatterns : RewritePatternSet := [] in
    let fnPatterns := add [CIRFuncLowering] fnPatterns in
    module ← getOperation;
    r ← callDriver Partial (applyPartialConversion driver) module fnTarget
          fnPatterns;
    _ ← (if failed r then signalPassFailure else mret tt);
    let retTarget := emptyTarget in
    let retTarget :=
      addLegalOp [ModuleOp.getOperationName; func.ReturnOp.getOperationName;
                  func.CallOp.getOperationName] retTarget in
    let retTarget :=
      addIllegalOp [cir.ReturnOp.getOperationName;
                    cir.CallOp.getOperationName] retTarget in
    let retPatterns : RewritePatternSet := [] in
    let retPatterns := add [CIRReturnLowering; CIRCallLowering] retPatterns in
    r ← callDriver Partial (applyPartialConversion driver) module retTarget
          retPatterns;
    if failed r then signalPassFailure else mret tt.

Definition createConvertCIRToLLVMPass : Pass :=
    mkPass "cir-to-llvm" ["llvm"; "func"; "scf"]
      ConvertCIRToLLVMPass_runOnOperation.
Definition createConvertCIRToMemRefPass : Pass :=
    mkPass "cir-to-memref" ["memref"; "func"; "scf"]
      ConvertCIRToMemRefPass_runOnOperation.
Definition createConvertCIRToFuncPass : Pass :=
    mkPass "cir-to-func" ["builtin"; "func"; "cir"]
      ConvertCIRToFuncPass_runOnOperation.
End Passes.

(** ** The pass manager *)

Inductive PipelineState : Type :=
| NotStarted
| Running (index : nat)
| Succeeded
| Failed (index : nat) (reason : string).

(** A run of the pipeline: where the state machine stands, the module, the
    passes executed so far, each with whether it signalled failure, and the
    calls they made into the driver. *)
Record Pipeline : Type := mkPipeline {
  plState : PipelineState;
  plModule : Operation;
  plExecuted : list (string * bool);
  plCalls : list DriverCall
}.

Definition PassManager : Type := list Pass.
Definition addPass (p : Pass) (pm : PassManager) : PassManager := pm ++ [p].

(** Modelled from the spec: [PassManager::run] is declared outside this
    file.  Section 4.4: "Passes run strictly in declaration order; the
    pipeline is a simple sequential state machine — states are {NotStarted,
    Running(pass index), Succeeded, Failed(pass index, reason)} — with no
    retry: any Pass failure transitions directly to Failed and aborts
    remaining passes".  The reason of a failure is the name of the pass. *)
Definition PassManager_step (pm : PassManager) (c : Pipeline)
  : option Pipeline :=
  match plState c with
  | NotStarted =>
      Some (mkPipeline (Running 0) (plModule c) (plExecuted c) (plCalls c))
  | Running i =>
      match pm !! i with
      | None =>
          Some (mkPipeline Succeeded (plModule c) (plExecuted c) (plCalls c))
      | Some p =>
          match runOnOperation p (mkPassState (plModule c) false []) with
          | None => None
          | Some (_, st) =>
              Some (mkPipeline
                      (if psFailed st then Failed i (getArgument p)
                       else Running (S i))
                      (psModule st)
                      (plExecuted c ++ [(getArgument p, psFailed st)])
                      (plCalls c ++ psCalls st))
          end
      end
  | Succeeded | Failed _ _ => Some c
  end.

Fixpoint PassManager_iter (n : nat) (pm : PassManager) (c : Pipeline)
  : option Pipeline :=
  match n with
  | O => Some c
  | S n' =>
      match PassManager_step pm c with
      | None => None
      | Some c' => PassManager_iter n' pm c'
      end
  end.

Definition PassManager_run (pm : PassManager) (m : Operation)
  : option Pipeline :=
  PassManager_iter (length pm + 2) pm (mkPipeline NotStarted m [] []).

Definition PipelineState_failed (s : PipelineState) : bool :=
  match s with Succeeded => false | _ => true end.

(** ** lowerFromCIRToLLVMIR *)

(** How a call ends: it returns, it goes through [report_fatal_error], or
    it never gets there (an assertion inside a pattern, a driver that does
    not come back). *)
Inductive Outcome (A : Type) : Type :=
| Returned (a : A)
| FatalError (msg : string)
| NoReturn.
Arguments Returned {A} a.
Arguments FatalError {A} msg.
Arguments NoReturn {A}.

Section Lowering.
Context (driver : ConversionDriver).
Context (LLVMConversionTarget : ConversionTarget).
Context {LLVMTypeConverter : Type} (typeConverter : LLVMTypeConverter).
Context (populateAffineToStdConversionPatterns
           populateSCFToControlFlowConversionPatterns
             : RewritePatternSet → RewritePatternSet).
Context (populateArithmeticToLLVMConversionPatterns
           populateMemRefToLLVMConversionPatterns
           populateFuncToLLVMConversionPatterns
             : LLVMTypeConverter → RewritePatternSet → RewritePatternSet).

  (** The verifier of the module and the translation to LLVM IR; a
      [std::unique_ptr<llvm::Module>] may be null.  Registering the LLVM
      dialect translation and the two LLVM contexts have no part in what
      the function hands back and are left out. *)
Context {LLVMModule : Type}.
Context (verify : Operation → LogicalResult).
Context (translateModuleToLLVMIR : Operation → option LLVMModule).

  (** The pass manager as [lowerFromCIRToLLVMIR] fills it. *)
Definition lowerFromCIRToLLVMIR_pm : PassManager :=
    let pm : PassManager := [] in
    let pm := addPass (createConvertCIRToFuncPass driver) pm in
    let pm := addPass (createConvertCIRToMemRefPass driver) pm in
    let pm :=
      addPass (createConvertCIRToLLVMPass driver LLVMConversionTarget
                 typeConverter populateAffineToStdConversionPatterns
                 populateSCFToControlFlowConversionPatterns
                 populateArithmeticToLLVMConversionPatterns
                 populateMemRefToLLVMConversionPatterns
                 populateFuncToLLVMConversionPatterns) pm in
    pm.

Definition lowerFromCIRToLLVMIR (theModule : Operation)
    : Outcome (option LLVMModule) :=
    let pm := lowerFromCIRToLLVMIR_pm in
    match PassManager_run pm theModule with
    | None => NoReturn
    | Some run =>
        let result := negb (PipelineState_failed (plState run)) in
        if negb result then
          FatalError "The pass manager failed to lower CIR to LLVMIR dialect!"
        else
          let theModule := plModule run in
          if failed (verify theModule) then
            FatalError "Verification of the final LLVMIR dialect failed!"
          else
            let llvmModule := translateModuleToLLVMIR theModule in
            match llvmModule with
            | None =>
                FatalError "Lowering from LLVMIR dialect to llvm IR failed!"
            | Some _ => Returned llvmModule
            end
    end.
End Lowering.

(** ** cir-tool *)

(** clang/tools/cir-tool/cir-tool.cpp: the driver program registers the
    dialects it reads and the passes it offers, and leaves the rest to
    [MlirOptMain]. *)
Module cir_tool.
Definition DialectRegistry : Type := list string.

  (** [registry.insert<...>()]. *)
Definition registry_insert (dialects : list string)
      (registry : DialectRegistry) : DialectRegistry :=
    registry ++ dialects.

  (** The passes on offer, by the argument that selects them. *)
Definition PassRegistry : Type := gmap string Pass.

  (** [mlir::registerPass(allocator)]: the pass the allocator makes is
      entered under its argument.  A pass without an argument, and a pass
      under an argument that is taken, end the program ([None]). *)
Definition registerPass (allocator : unit → Pass) (passes : gmap string Pass)
    : option (gmap string Pass) :=
    let pass := allocator tt in
    if String.eqb (getArgument pass) "" then None
    else
      match passes !! getArgument pass with
      | Some _ => None
      | None => Some (<[getArgument pass := pass]> passes)
      end.

Section Main.
Context (driver : ConversionDriver).
Context (LLVMConversionTarget : ConversionTarget).
Context {LLVMTypeConverter : Type} (typeConverter : LLVMTypeConverter).
Context (populateAffineToStdConversionPatterns
             populateSCFToControlFlowConversionPatterns
               : RewritePatternSet → RewritePatternSet).
Context (populateArithmeticToLLVMConversionPatterns
             populateMemRefToLLVMConversionPatterns
             populateFuncToLLVMConversionPatterns
               : LLVMTypeConverter → RewritePatternSet → RewritePatternSet).

    (** The passes and the entry point that come from elsewhere. *)
Context (createLifetimeCheckPass createMergeCleanupsPass : Pass).
Context (registerTransformsPasses
               : gmap string Pass → option (gmap string Pass)).
Context (MlirOptMain
               : list string → string → DialectRegistry → bool →
                 gmap string Pass → LogicalResult).

Definition main_registry : DialectRegistry :=
      registry_insert ["builtin"; "arith"; "cir"; "memref"; "llvm"] [].

Definition main_passes : option (gmap string Pass) :=
      passes ← registerPass (λ _, createConvertCIRToFuncPass driver) ∅;
      passes ← registerPass
                 (λ _, createConvertCIRToLLVMPass driver LLVMConversionTarget
                         typeConverter populateAffineToStdConversionPatterns
                         populateSCFToControlFlowConversionPatterns
                         populateArithmeticToLLVMConversionPatterns
                         populateMemRefToLLVMConversionPatterns
                         populateFuncToLLVMConversionPatterns) passes;
      passes ← registerPass (λ _, createConvertCIRToMemRefPass driver) passes;
      passes ← registerPass (λ _, createLifetimeCheckPass) passes;
      passes ← registerPass (λ _, createMergeCleanupsPass) passes;
      registerTransformsPasses passes.

    (** [main]: the exit code is [failed(MlirOptMain(...))] as an [int]. *)
Definition main (argv : list string) : option Z :=
      let registry := main_registry in
      passes ← main_passes;
      Some (if failed (MlirOptMain argv
                         ("Clang IR analysis and optimization tool"
                          +:+ String "010"%char "")
                         registry true passes)
            then 1%Z else 0%Z).
End Main.
End cir_tool.

(** ** Names for what the passes set up *)

(** The targets and pattern sets the passes build in their bodies. *)
Definition fnTarget : ConversionTarget :=
  addIllegalOp [cir.FuncOp.getOperationName]
    (addLegalOp [ModuleOp.getOperationName; func.FuncOp.getOperationName]
       emptyTarget).
Definition fnPatterns : RewritePatternSet := add [CIRFuncLowering] [].
Definition retTarget : ConversionTarget :=
  addIllegalOp [cir.ReturnOp.getOperationName; cir.CallOp.getOperationName]
    (addLegalOp [ModuleOp.getOperationName; func.ReturnOp.getOperationName;
                 func.CallOp.getOperationName] emptyTarget).
Definition retPatterns : RewritePatternSet :=
  add [CIRReturnLowering; CIRCallLowering] [].
Definition memrefTarget : ConversionTarget :=
  addLegalDialect ["affine"; "arith"; "memref"; "func"]
    (addLegalOp [ModuleOp.getOperationName] emptyTarget).
Definition memrefPatterns : RewritePatternSet :=
  populateCIRToMemRefConversionPatterns [].


(** The state a pass starts in when the pass manager runs it on [m]. *)
Definition passStart (m : Operation) : PassState := mkPassState m false [].


(** ** The clone, seen along the sequence of value occurrences *)


(** What the clone does to the occurrences, in order: a use is looked up
    in the mapping as it stands, a definition gets the next handle and is
    entered into the mapping. *)
Fixpoint cloneEvents (es : list Event) (m : gmap nat Value) (nv : nat)
  : list Event * (gmap nat Value * nat) :=
  match es with
  | [] => ([], (m, nv))
  | Use v :: es' =>
      let '(r, s) := cloneEvents es' m nv in
      (Use (lookupOrDefault m v) :: r, s)
  | Def v :: es' =>
      let v' := mkValue nv (vty v) in
      let '(r, s) := cloneEvents es' (<[vid v := v']> m) (S nv) in
      (Def v' :: r, s)
  end.

Definition defIds (es : list Event) : gset nat :=
  list_to_set (vid <$> defsOf es).

(** The invariant of the data model on a piece of IR, along its
    occurrences: a value is defined once, and an operand refers to a value
    defined earlier in program order or to a value that is not defined in
    the piece at all. *)
Fixpoint scopedEvents (all seen : gset nat) (es : list Event) : bool :=
  match es with
  | [] => true
  | Use v :: es' =>
      (bool_decide (vid v ∈ seen) || bool_decide (vid v ∉ all))
      && scopedEvents all seen es'
  | Def v :: es' =>
      bool_decide (vid v ∉ seen)
      && scopedEvents all ({[vid v]} ∪ seen) es'
  end.

Definition wellScoped (src : Blocks) : bool :=
  scopedEvents (defIds (Blocks_events src)) ∅ (Blocks_events src).


(** A clone step from [st] to [st'] that turns the occurrences [es] into
    [es'] agrees with [cloneEvents] on the occurrences, the mapping and the
    value allocator. *)
Definition clonesLike (es es' : list Event) (st st' : CloneState) : Prop :=
  es' = (cloneEvents es (csMapper st) (csNextValue st)).1 ∧
  csMapper st' = (cloneEvents es (csMapper st) (csNextValue st)).2.1 ∧
  csNextValue st' = (cloneEvents es (csMapper st) (csNextValue st)).2.2.

(** What holds of the pipeline at every step of a run of [pm]: the passes
    executed are the first passes of [pm] in order, all of them succeeded
    except, in a failed run, the last one, which is the pass the state
    names. *)
Definition pipelineInvariant (pm : PassManager) (c : Pipeline) : Prop :=
  match plState c with
  | NotStarted => plExecuted c = []
  | Running i =>
      plExecuted c = (λ p, (getArgument p, false)) <$> take i pm ∧
      i ≤ length pm
  | Succeeded => plExecuted c = (λ p, (getArgument p, false)) <$> pm
  | Failed i n =>
      ∃ p, pm !! i = Some p ∧ n = getArgument p ∧
           plExecuted c =
             ((λ p, (getArgument p, false)) <$> take i pm) ++ [(n, true)]
  end.

(** ** Sample inputs *)

Module Samples.
Definition i32 : MType := IntegerType 32.
Definition i64 : MType := IntegerType 64.
Definition ptr_i32 : MType := PointerType i32.

  (** A rewriter whose allocators are past every handle used below. *)
Definition rw0 : RewriterState := mkRewriter 100 100 [] None.

  (** [%4 = cir.call @foo(%1, %2, %3)]: three arguments, one result. *)
Definition call_foo : Operation :=
    mkOp 7 "cir.call" [mkValue 1 i32; mkValue 2 i32; mkValue 3 i32]
      [mkValue 4 i32] [("callee", FlatSymbolRefAttr "foo")] RNil.

  (** The same call carrying a [sym_name] of its own next to the callee. *)
Definition call_foo_named : Operation :=
    mkOp 7 "cir.call" [mkValue 1 i32; mkValue 2 i32; mkValue 3 i32]
      [mkValue 4 i32]
      [("callee", FlatSymbolRefAttr "foo"); ("sym_name", StringAttr "bar")]
      RNil.

  (** [%1 = cir.alloca i32, cir.ptr<i32> {alignment = 4 : i64}]. *)
Definition alloca_i32 : Operation :=
    mkOp 1 "cir.alloca" [] [mkValue 1 ptr_i32]
      [("type", TypeAttr i32); ("alignment", IntegerAttr i64 4)] RNil.

Definition buffer : Value := mkValue 6 (MemRefType [] i32).

  (** [cir.store %0, %6] and [%2 = cir.load %6] on an already lowered
      buffer. *)
Definition store_i32 : Operation :=
    mkOp 2 "cir.store" [mkValue 0 i32; buffer] [] [] RNil.
Definition load_i32 : Operation :=
    mkOp 3 "cir.load" [buffer] [mkValue 2 i32] [] RNil.

  (** A function that stores its argument to a stack slot, loads it back
      and returns it. *)
Definition f_body : Blocks :=
    BCons [mkValue 0 i32]
      (OCons alloca_i32
      (OCons (mkOp 2 "cir.store" [mkValue 0 i32; mkValue 1 ptr_i32] [] [] RNil)
      (OCons (mkOp 3 "cir.load" [mkValue 1 ptr_i32] [mkValue 2 i32] [] RNil)
      (OCons (mkOp 4 "cir.return" [mkValue 2 i32] [] [] RNil) ONil))))
      BNil.
Definition f : Operation :=
    mkOp 5 "cir.func" [] []
      [("sym_name", StringAttr "f");
       ("function_type", TypeAttr (FunctionType [i32] [i32]))]
      (RCons f_body RNil).
Definition module_f : Operation :=
    mkOp 6 "builtin.module" [] [] [] (RCons (BCons [] (OCons f ONil) BNil) RNil).

Definition module_empty : Operation :=
    mkOp 0 "builtin.module" [] [] [] (RCons (BCons [] ONil BNil) RNil).

  (** A module of the LLVM dialect, and one with a stray buffer
      allocation next to an operation no pattern knows. *)
Definition module_llvm : Operation :=
    mkOp 0 "builtin.module" [] [] []
      (RCons (BCons []
         (OCons (mkOp 1 "llvm.func" [] [] [("sym_name", StringAttr "g")]
                   (RCons (BCons []
                      (OCons (mkOp 2 "llvm.return" [] [] [] RNil) ONil) BNil)
                    RNil)) ONil) BNil) RNil).
Definition module_stray : Operation :=
    mkOp 0 "builtin.module" [] [] []
      (RCons (BCons []
         (OCons (mkOp 1 "memref.alloca" [] [mkValue 0 (MemRefType [] i32)]
                   [] RNil)
         (OCons (mkOp 2 "cir.stray" [mkValue 0 (MemRefType [] i32)] [] []
                   RNil) ONil)) BNil) RNil).

  (** The parts of the conversion libraries, cut down: the LLVM dialect is
      legal and the only lowering turns a buffer allocation into an LLVM
      one. *)
Definition llvmTarget : ConversionTarget := addLegalDialect ["llvm"] emptyTarget.
Definition AllocaOpLowering : RewritePattern :=
    OpRewritePattern "AllocaOpLowering" "memref.alloca"
      (λ op, _ ← replaceOpWithNewOp op
                   (mkState "llvm.alloca" [] (getResultTypes op) [] RNil);
             mret success).
Definition noPatterns : RewritePatternSet → RewritePatternSet := λ ps, ps.
Definition noTypedPatterns : unit → RewritePatternSet → RewritePatternSet :=
    λ _ ps, ps.
Definition memrefPatterns : unit → RewritePatternSet → RewritePatternSet :=
    λ _ ps, add [AllocaOpLowering] ps.

  (** A driver that changes nothing and reports failure. *)
Definition failingDriver : ConversionDriver :=
    mkConversionDriver (λ m _ _, Some (mkOutcome failure m [] []))
      (λ m _ _, Some (mkOutcome failure m [] [])).


  (** The pass manager of [lowerFromCIRToLLVMIR] over a given driver and
      the cut-down conversion libraries. *)
Definition pm (driver : ConversionDriver) : PassManager :=
    lowerFromCIRToLLVMIR_pm driver llvmTarget tt noPatterns noPatterns
      noTypedPatterns memrefPatterns noTypedPatterns.

  (** [lowerFromCIRToLLVMIR] with a verifier that accepts every module and
      a translation that hands the module back. *)
Definition lower (driver : ConversionDriver)
    : Operation → Outcome (option Operation) :=
    lowerFromCIRToLLVMIR driver llvmTarget tt noPatterns noPatterns
      noTypedPatterns memrefPatterns noTypedPatterns (λ _, success)
      (λ m, Some m).
End Samples.

(** More inputs: a constant, a call that is a symbol, a function with
    attributes beyond its name and type. *)
Module Inputs.
  (** [%0 = cir.cst(42 : i32) : i32]. *)
Definition cst_42 : Operation :=
    mkOp 9 "cir.cst" [] [mkValue 0 Samples.i32]
      [("value", IntegerAttr Samples.i32 42)] RNil.

  (** [cir.return %2]. *)
Definition return_2 : Operation :=
    mkOp 4 "cir.return" [mkValue 2 Samples.i32] [] [] RNil.

  (** A function with a linkage attribute and a use before the definition
      in its body. *)
Definition g : Operation :=
    mkOp 5 "cir.func" [] []
      [("sym_name", StringAttr "g");
       ("function_type", TypeAttr (FunctionType [] []));
       ("linkage", StringAttr "internal")]
      (RCons
         (BCons []
            (OCons (mkOp 1 "cir.use" [mkValue 7 Samples.i32] [] [] RNil)
            (OCons (mkOp 2 "cir.cst" [] [mkValue 7 Samples.i32]
                      [("value", IntegerAttr Samples.i32 1)] RNil)
            (OCons (mkOp 3 "cir.return" [] [] [] RNil) ONil)))
            BNil)
         RNil).

  (** Two passes from elsewhere, under arguments of their own. *)
Definition lifetimeCheck : Pass :=
    mkPass "cir-lifetime-check" [] (λ st, Some (tt, st)).
Definition mergeCleanups : Pass :=
    mkPass "cir-merge-cleanups" [] (λ st, Some (tt, st)).
End Inputs.

(** * Properties *)

(** ** The rewriter *)

Ltac rewriter_unfold :=
  unfold replaceOpWithNewOp, create, replaceOp, asserted,
    mbind, mret, PatternRewriter_bind, PatternRewriter_ret in *.

Lemma bind_asserted_Some {A B} (o : option A) (k : A → PatternRewriter B)
    rw (res : B * RewriterState) :
  (asserted o ≫= k) rw = Some res → ∃ a, o = Some a ∧ k a rw = Some res.
Proof.
  unfold mbind, PatternRewriter_bind, asserted.
  destruct o as [a|]; [eauto | discriminate].
Qed.

Lemma replaceOpWithNewOp_Some op s rw new rw' :
  replaceOpWithNewOp op s rw = Some (new, rw') →
  new = mkOp (nextOp rw) (osName s) (osOperands s)
          (freshResults (nextValue rw) (osTypes s)) (osAttrs s) (osRegions s)
  ∧ length (results op) = length (osTypes s)
  ∧ rw' = mkRewriter (nextValue rw + length (osTypes s)) (S (nextOp rw))
            (inserted rw ++ [new]) (Some (results new)).
Proof.
  rewriter_unfold. cbn.
  destruct (Nat.eqb_spec (length (results op))
              (length (freshResults (nextValue rw) (osTypes s)))) as [E|E];
    [|discriminate].
  intros [= <- <-]. unfold freshResults in E. rewrite length_imap in E.
  done.
Qed.

Lemma replaceOpWithNewOp_total op s rw :
  length (results op) = length (osTypes s) →
  is_Some (replaceOpWithNewOp op s rw).
Proof.
  intros E. rewriter_unfold. cbn. unfold freshResults.
  rewrite length_imap, E, Nat.eqb_refl. eauto.
Qed.

(** A pattern that ends in [replaceOpWithNewOp op s; return success()]. *)
Lemma replace_then_success op s rw r rw' :
  (replaceOpWithNewOp op s ≫= λ _, mret success) rw = Some (r, rw') →
  ∃ new,
    r = success ∧
    new = mkOp (nextOp rw) (osName s) (osOperands s)
            (freshResults (nextValue rw) (osTypes s)) (osAttrs s) (osRegions s)
    ∧ length (results op) = length (osTypes s)
    ∧ inserted rw' = inserted rw ++ [new]
    ∧ replacement rw' = Some (results new).
Proof.
  unfold mbind at 1, PatternRewriter_bind at 1.
  destruct (replaceOpWithNewOp op s rw) as [[new rw1]|] eqn:Hr; [|discriminate].
  intros [= <- <-]. apply replaceOpWithNewOp_Some in Hr as (-> & E & ->).
  eexists. repeat split; done.
Qed.

(** ** The patterns *)

(** X3: what the call lowering does hold on to: arguments and result types;
    the callee of the new call is the symbol name of the matched operation
    itself. *)
Lemma call_lowering_rewrites (op : Operation) (rw rw' : RewriterState)
    (r : LogicalResult) :
  CIRCallLowering.matchAndRewrite op rw = Some (r, rw') →
  ∃ new,
    r = success ∧ inserted rw' = inserted rw ++ [new] ∧
    name new = func.CallOp.getOperationName ∧
    operands new = operands op ∧
    getResultTypes new = getResultTypes op ∧
    getAttr "callee" new = SymbolRefAttr.get op.
Proof.
  unfold CIRCallLowering.matchAndRewrite. intros H.
  apply bind_asserted_Some in H as (callee & Hc & H).
  apply replace_then_success in H as (new & -> & -> & _ & Hi & _).
  eexists. split_and!; [done | exact Hi | done | done | | ].
  - unfold getResultTypes, freshResults. cbn.
    rewrite fmap_imap. apply list_eq; intros i.
    rewrite list_lookup_imap, !list_lookup_fmap.
    by destruct (results op !! i).
  - by rewrite Hc.
Qed.

(** C2 (as the code has it): on the call [%4 = cir.call @foo(%1, %2, %3)]
    the call lowering stops on the assertion of the symbol getter and
    produces nothing; on a call to [@foo] that carries a [sym_name] "bar"
    of its own, the call it produces has callee [@bar], not [@foo]. *)
Theorem call_lowering_callee_from_own_symbol :
  CIRCallLowering.matchAndRewrite Samples.call_foo Samples.rw0 = None ∧
  cir.CallOp.getCalleeAttr Samples.call_foo_named
    = Some (FlatSymbolRefAttr "foo") ∧
  ∃ new rw',
    CIRCallLowering.matchAndRewrite Samples.call_foo_named Samples.rw0
      = Some (success, rw') ∧
    inserted rw' = [new] ∧
    getAttr "callee" new = Some (FlatSymbolRefAttr "bar").
Proof.
  split; [reflexivity|]. split; [reflexivity|].
  eexists _, _. split; [vm_compute; reflexivity|].
  split; reflexivity.
Qed.

(** C5: whenever the load lowering rewrites a [cir.load], it inserts one
    [memref.load] whose only operand is the first (address) operand and
    replaces the load by its result; whenever the store lowering rewrites a
    [cir.store], it inserts one [memref.store] whose operands are the first
    (value) and then the second (address) operand.  Both do rewrite a load
    of one result from a buffer, respectively a store without results. *)
Theorem load_store_lowering_operand_order (op : Operation)
    (remapped : list Value) (rw : RewriterState) :
  (∀ r rw', CIRLoadLowering.matchAndRewrite op remapped rw = Some (r, rw') →
     ∃ addr new,
       remapped !! 0 = Some addr ∧ r = success ∧
       inserted rw' = inserted rw ++ [new] ∧
       name new = memref.LoadOp.getOperationName ∧
       operands new = [addr] ∧
       length (results new) = 1 ∧
       replacement rw' = Some (results new)) ∧
  (∀ r rw', CIRStoreLowering.matchAndRewrite op remapped rw = Some (r, rw') →
     ∃ value addr new,
       remapped !! 0 = Some value ∧ remapped !! 1 = Some addr ∧ r = success ∧
       inserted rw' = inserted rw ++ [new] ∧
       name new = memref.StoreOp.getOperationName ∧
       operands new = [value; addr] ∧
       results new = [] ∧
       replacement rw' = Some []) ∧
  (∀ addr shape elementType,
     remapped !! 0 = Some addr → vty addr = MemRefType shape elementType →
     length (results op) = 1 →
     is_Some (CIRLoadLowering.matchAndRewrite op remapped rw)) ∧
  (∀ value addr,
     remapped !! 0 = Some value → remapped !! 1 = Some addr →
     results op = [] →
     is_Some (CIRStoreLowering.matchAndRewrite op remapped rw)).
Proof.
  split_and!.
  - unfold CIRLoadLowering.matchAndRewrite. intros r rw' H.
    apply bind_asserted_Some in H as (addr & Ha & H).
    apply bind_asserted_Some in H as (s & Hs & H).
    apply replace_then_success in H as (new & -> & -> & _ & Hi & Hr).
    unfold memref.LoadOp.build in Hs.
    destruct (vty addr); try discriminate. injection Hs as <-.
    eexists addr, _. split_and!; [exact Ha | done | exact Hi | done..].
  - unfold CIRStoreLowering.matchAndRewrite. intros r rw' H.
    apply bind_asserted_Some in H as (value & Hv & H).
    apply bind_asserted_Some in H as (addr & Ha & H).
    apply replace_then_success in H as (new & -> & -> & _ & Hi & Hr).
    eexists value, addr, _.
    split_and!; [exact Hv | exact Ha | done | exact Hi | done..].
  - intros addr shape elt Ha Ht Hl.
    unfold CIRLoadLowering.matchAndRewrite, memref.LoadOp.build.
    rewrite Ha. unfold asserted, mbind, PatternRewriter_bind. rewrite Ht.
    destruct (replaceOpWithNewOp_total op
                (mkState memref.LoadOp.getOperationName [addr] [elt] [] RNil)
                rw Hl) as [[new rw1] ->].
    eauto.
  - intros value addr Hv Ha Hl.
    unfold CIRStoreLowering.matchAndRewrite.
    rewrite Hv, Ha. unfold asserted, mbind, PatternRewriter_bind.
    destruct (replaceOpWithNewOp_total op (memref.StoreOp.build value addr) rw)
      as [[new rw1] ->]; [by rewrite Hl|].
    eauto.
Qed.

Lemma load_store_lowering_operand_order_witness :
  (∃ new,
     name new = memref.LoadOp.getOperationName ∧
     operands new = [Samples.buffer]) ∧
  is_Some (CIRStoreLowering.matchAndRewrite Samples.store_i32
             (operands Samples.store_i32) Samples.rw0).
Proof.
  split.
  - destruct (proj1 (load_store_lowering_operand_order Samples.load_i32
                       (operands Samples.load_i32) Samples.rw0)
                success
                (mkRewriter 101 101
                   [mkOp 100 "memref.load" [Samples.buffer]
                      [mkValue 100 Samples.i32] [] RNil]
                   (Some [mkValue 100 Samples.i32]))
                eq_refl)
      as (addr & new & Ha & _ & _ & Hn & Ho & _).
    exists new. injection Ha as <-. split; assumption.
  - apply (proj2 (proj2 (proj2 (load_store_lowering_operand_order
             Samples.store_i32 (operands Samples.store_i32) Samples.rw0)))
             (mkValue 0 Samples.i32) Samples.buffer);
      reflexivity.
Defined.



(** ** The state machine of the pass manager, for any list of passes *)

Lemma PassManager_step_invariant pm c c' :
  pipelineInvariant pm c → PassManager_step pm c = Some c' →
  pipelineInvariant pm c'.
Proof.
  unfold pipelineInvariant, PassManager_step.
  destruct (plState c) as [|i| |i n] eqn:Hs.
  - intros He [= <-]. cbn. split; [by rewrite He|lia].
  - intros [He Hi]. destruct (pm !! i) as [p|] eqn:Hp.
    + destruct (runOnOperation p _) as [[[] st]|]; [|discriminate].
      intros [= <-]. cbn. destruct (psFailed st).
      * exists p. by rewrite He.
      * split.
        -- rewrite (take_S_r _ _ _ Hp), fmap_app, He. done.
        -- apply lookup_lt_Some in Hp. lia.
    + intros [= <-]. cbn. apply lookup_ge_None in Hp.
      by rewrite He, take_ge.
  - intros He [= <-]. by rewrite Hs.
  - intros He [= <-]. by rewrite Hs.
Qed.

(** However many steps a run has made, no pass was executed after a pass
    that signalled failure. *)
Lemma PassManager_iter_invariant pm n :
  ∀ c c', pipelineInvariant pm c → PassManager_iter n pm c = Some c' →
          pipelineInvariant pm c'.
Proof.
  induction n as [|n IH]; intros c c' Hi; cbn.
  - by intros [= <-].
  - destruct (PassManager_step pm c) as [c1|] eqn:Hstep; [|discriminate].
    apply IH. by eapply PassManager_step_invariant.
Qed.

Lemma PassManager_run_invariant pm m run :
  PassManager_run pm m = Some run → pipelineInvariant pm run.
Proof. apply PassManager_iter_invariant. reflexivity. Qed.

(** ** The passes and the pipeline *)

Ltac pass_unfold :=
  unfold callDriver, getOperation, signalPassFailure, mbind, mret,
    PassM_bind, PassM_ret in *.

Section PipelineFacts.
Context (driver : ConversionDriver).
Context (LLVMConversionTarget : ConversionTarget).
Context {LLVMTypeConverter : Type} (typeConverter : LLVMTypeConverter).
Context (populateAffineToStdConversionPatterns
           populateSCFToControlFlowConversionPatterns
             : RewritePatternSet → RewritePatternSet).
Context (populateArithmeticToLLVMConversionPatterns
           populateMemRefToLLVMConversionPatterns
           populateFuncToLLVMConversionPatterns
             : LLVMTypeConverter → RewritePatternSet → RewritePatternSet).
Context {LLVMModule : Type}.
Context (verify : Operation → LogicalResult).
Context (translateModuleToLLVMIR : Operation → option LLVMModule).

Local Abbreviation llvmTarget :=
    (addLegalOp [ModuleOp.getOperationName] LLVMConversionTarget)
    (only parsing).
Local Abbreviation llvmPatterns :=
    (populateFuncToLLVMConversionPatterns typeConverter
       (populateMemRefToLLVMConversionPatterns typeConverter
          (populateSCFToControlFlowConversionPatterns
             (populateArithmeticToLLVMConversionPatterns typeConverter
                (populateAffineToStdConversionPatterns [])))))
    (only parsing).
Local Abbreviation funcPass := (createConvertCIRToFuncPass driver)
    (only parsing).
Local Abbreviation memrefPass := (createConvertCIRToMemRefPass driver)
    (only parsing).
Local Abbreviation llvmPass :=
    (createConvertCIRToLLVMPass driver LLVMConversionTarget typeConverter
       populateAffineToStdConversionPatterns
       populateSCFToControlFlowConversionPatterns
       populateArithmeticToLLVMConversionPatterns
       populateMemRefToLLVMConversionPatterns
       populateFuncToLLVMConversionPatterns)
    (only parsing).
Local Abbreviation pm :=
    (lowerFromCIRToLLVMIR_pm driver LLVMConversionTarget typeConverter
       populateAffineToStdConversionPatterns
       populateSCFToControlFlowConversionPatterns
       populateArithmeticToLLVMConversionPatterns
       populateMemRefToLLVMConversionPatterns
       populateFuncToLLVMConversionPatterns)
    (only parsing).
Local Abbreviation lower :=
    (lowerFromCIRToLLVMIR driver LLVMConversionTarget typeConverter
       populateAffineToStdConversionPatterns
       populateSCFToControlFlowConversionPatterns
       populateArithmeticToLLVMConversionPatterns
       populateMemRefToLLVMConversionPatterns
       populateFuncToLLVMConversionPatterns verify translateModuleToLLVMIR)
    (only parsing).

  (** Each pass, as the calls it makes into the driver. *)
Lemma funcPass_run (st : PassState) :
    runOnOperation funcPass st =
      match applyPartialConversion driver (psModule st) fnTarget fnPatterns with
      | None => None
      | Some out1 =>
          match applyPartialConversion driver (coModule out1) retTarget
                  retPatterns with
          | None => None
          | Some out2 =>
              Some (tt,
                    mkPassState (coModule out2)
                      (psFailed st || failed (coResult out1)
                       || failed (coResult out2))
                      (psCalls st ++
                       [mkCall Partial fnTarget fnPatterns (psModule st) out1;
                        mkCall Partial retTarget retPatterns (coModule out1)
                          out2]))
          end
      end.
  Proof.
    unfold createConvertCIRToFuncPass, runOnOperation,
      ConvertCIRToFuncPass_runOnOperation. cbv zeta. pass_unfold.
    unfold fnTarget, fnPatterns, retTarget, retPatterns.
    destruct (applyPartialConversion driver (psModule st) _ _)
      as [out1|]; [|reflexivity].
    destruct (coResult out1); cbn;
      (destruct (applyPartialConversion driver (coModule out1) _ _)
         as [out2|]; [|reflexivity]);
      destruct (coResult out2); cbn; rewrite <- ?app_assoc; cbn;
      rewrite ?orb_true_r, ?orb_false_r; reflexivity.
  Qed.


Lemma llvmPass_run (st : PassState) :
    runOnOperation llvmPass st =
      match applyFullConversion driver (psModule st) llvmTarget
              llvmPatterns with
      | None => None
      | Some out =>
          Some (tt,
                mkPassState (coModule out)
                  (psFailed st || failed (coResult out))
                  (psCalls st ++
                   [mkCall Full llvmTarget llvmPatterns (psModule st) out]))
      end.
  Proof.
    unfold createConvertCIRToLLVMPass, runOnOperation,
      ConvertCIRToLLVMPass_runOnOperation. cbv zeta. pass_unfold.
    destruct (applyFullConversion driver (psModule st) _ _)
      as [out|]; [|reflexivity].
    destruct (coResult out); cbn; rewrite ?orb_true_r, ?orb_false_r;
      reflexivity.
  Qed.





  (** C9: in one invocation the function-shape pass calls the driver twice
      in partial mode on the one module: first with the [cir.func] target
      and [CIRFuncLowering], then, on the module as that run left it, with
      the [cir.return]/[cir.call] target and the two patterns for them.
      The second call is made whatever the first one reported; the pass has
      signalled failure if either run failed. *)
Theorem func_pass_runs_both_conversions (st : PassState)
      (out1 out2 : ConversionOutcome) :
    applyPartialConversion driver (psModule st) fnTarget fnPatterns
      = Some out1 →
    applyPartialConversion driver (coModule out1) retTarget retPatterns
      = Some out2 →
    runOnOperation funcPass st =
      Some (tt,
            mkPassState (coModule out2)
              (psFailed st || failed (coResult out1) || failed (coResult out2))
              (psCalls st ++
               [mkCall Partial fnTarget fnPatterns (psModule st) out1;
                mkCall Partial retTarget retPatterns (coModule out1) out2])).
  Proof. intros H1 H2. by rewrite funcPass_run, H1, H2. Qed.



  (** C10: [lowerFromCIRToLLVMIR] hands back a non-null module whenever it
      returns.  When the pass manager comes back, a failed run, a failed
      verification of the module and a null translation each end in
      [report_fatal_error] with the message of that step; otherwise the
      translated module is returned. *)
Theorem lowering_returns_nonnull (theModule : Operation) :
    (∀ p, lower theModule = Returned p → is_Some p) ∧
    (∀ run, PassManager_run pm theModule = Some run →
       (PipelineState_failed (plState run) = true →
        lower theModule =
          FatalError "The pass manager failed to lower CIR to LLVMIR dialect!") ∧
       (PipelineState_failed (plState run) = false →
        failed (verify (plModule run)) = true →
        lower theModule =
          FatalError "Verification of the final LLVMIR dialect failed!") ∧
       (PipelineState_failed (plState run) = false →
        failed (verify (plModule run)) = false →
        translateModuleToLLVMIR (plModule run) = None →
        lower theModule =
          FatalError "Lowering from LLVMIR dialect to llvm IR failed!") ∧
       (∀ llvmModule,
          PipelineState_failed (plState run) = false →
          failed (verify (plModule run)) = false →
          translateModuleToLLVMIR (plModule run) = Some llvmModule →
          lower theModule = Returned (Some llvmModule))).
  Proof.
    unfold lowerFromCIRToLLVMIR. cbv zeta. split.
    - intros p. destruct (PassManager_run pm theModule) as [run|];
        [|discriminate].
      destruct (negb (negb _)); [discriminate|].
      destruct (failed _); [discriminate|].
      destruct (translateModuleToLLVMIR _) as [l|]; [|discriminate].
      intros [= <-]. eauto.
    - intros run ->. split_and!.
      + by intros ->.
      + by intros -> ->.
      + by intros -> -> ->.
      + by intros l -> -> ->.
  Qed.
End PipelineFacts.

Lemma func_pass_runs_both_conversions_witness :
  ∃ st',
    runOnOperation (createConvertCIRToFuncPass Samples.failingDriver)
      (passStart Samples.module_f) = Some (tt, st') ∧
    psFailed st' = true ∧
    dcMode <$> psCalls st' = [Partial; Partial].
Proof.
  eexists. split.
  - apply (func_pass_runs_both_conversions Samples.failingDriver
             (passStart Samples.module_f)
             (mkOutcome failure Samples.module_f [] [])
             (mkOutcome failure Samples.module_f [] []));
      reflexivity.
  - split; reflexivity.
Defined.



Lemma lowering_returns_nonnull_witness :
  ∃ p, Samples.lower (specDriver 8) Samples.module_empty = Returned p ∧
       is_Some p.
Proof.
  eexists. split; [vm_compute; reflexivity|].
  match goal with
  | |- is_Some ?p =>
      apply (proj1 (lowering_returns_nonnull (specDriver 8) Samples.llvmTarget
                      tt Samples.noPatterns Samples.noPatterns
                      Samples.noTypedPatterns Samples.memrefPatterns
                      Samples.noTypedPatterns (λ _, success) (λ m, Some m)
                      Samples.module_empty) p)
  end.
  vm_compute; reflexivity.
Defined.

(** ** The driver *)

Lemma lookupOp_elem_of k m op :
  lookupOp k m = Some op → op ∈ Operation_walk m.
Proof.
  unfold lookupOp. intros H. apply find_some in H as [H _].
  by apply list_elem_of_In.
Qed.



(** What a pattern emitted before it declined never reaches the module. *)
Lemma declined_patterns_leave_module mode target patterns k st op new st' :
  lookupOp k (dsModule st) = Some op →
  tryPatterns patterns op (dsNextValue st) (dsNextOp st) = Some None →
  legalizeOne mode target patterns k st = Some (new, st') →
  dsModule st' = dsModule st ∧ dsRewrites st' = dsRewrites st.
Proof.
  unfold legalizeOne. intros -> ->.
  destruct (isLegal target op); intros [= <- <-]; [done|].
  by destruct mode.
Qed.


(** A worklist of legal operations is popped to the end without a change. *)
Lemma drive_legal mode target patterns st :
  ∀ worklist fuel,
    length worklist ≤ fuel →
    (∀ k op, k ∈ worklist → lookupOp k (dsModule st) = Some op →
             isLegal target op = true) →
    drive fuel mode target patterns worklist st = Some st.
Proof.
  induction worklist as [|k wl IH]; intros [|fuel] Hf Hl; cbn in *;
    [done | done | lia | ].
  unfold legalizeOne.
  destruct (lookupOp k (dsModule st)) as [op|] eqn:Hk.
  - rewrite (Hl k op); [|left|done]. cbn.
    apply IH; [lia|]. intros k' op' Hk'. apply Hl. by right.
  - cbn. apply IH; [lia|]. intros k' op' Hk'. apply Hl. by right.
Qed.



Lemma filter_none {A} (f : A → bool) (l : list A) :
  (∀ x, In x l → f x = false) → List.filter f l = [].
Proof.
  induction l as [|a l IH]; cbn; [done|]. intros H.
  rewrite (H a); [|by left]. apply IH. intros x Hx. apply H. by right.
Qed.

Lemma applyConversion_legal fuel m target patterns :
  forallb (isLegal target) (Operation_walk m) = true →
  length (Operation_walk m) ≤ fuel →
  applyConversion Full fuel m target patterns = Some (mkOutcome success m [] []).
Proof.
  intros Hl Hf. unfold applyConversion.
  rewrite forallb_forall in Hl.
  rewrite drive_legal; cbn.
  - rewrite filter_none; [done|].
    intros op Hop. by rewrite (Hl op Hop).
  - by rewrite length_fmap.
  - intros k op _ Hk. apply Hl, list_elem_of_In. by eapply lookupOp_elem_of.
Qed.

Section FullConversionFacts.
Context (LLVMConversionTarget : ConversionTarget).
Context {LLVMTypeConverter : Type} (typeConverter : LLVMTypeConverter).
Context (populateAffineToStdConversionPatterns
           populateSCFToControlFlowConversionPatterns
             : RewritePatternSet → RewritePatternSet).
Context (populateArithmeticToLLVMConversionPatterns
           populateMemRefToLLVMConversionPatterns
           populateFuncToLLVMConversionPatterns
             : LLVMTypeConverter → RewritePatternSet → RewritePatternSet).

Local Abbreviation target :=
    (addLegalOp [ModuleOp.getOperationName] LLVMConversionTarget)
    (only parsing).
Local Abbreviation patterns :=
    (populateFuncToLLVMConversionPatterns typeConverter
       (populateMemRefToLLVMConversionPatterns typeConverter
          (populateSCFToControlFlowConversionPatterns
             (populateArithmeticToLLVMConversionPatterns typeConverter
                (populateAffineToStdConversionPatterns [])))))
    (only parsing).
Local Abbreviation llvmPass fuel :=
    (createConvertCIRToLLVMPass (specDriver fuel) LLVMConversionTarget
       typeConverter populateAffineToStdConversionPatterns
       populateSCFToControlFlowConversionPatterns
       populateArithmeticToLLVMConversionPatterns
       populateMemRefToLLVMConversionPatterns
       populateFuncToLLVMConversionPatterns)
    (only parsing).

  (** C7: on a module all of whose operations are legal for the target of
      the final pass, the full-conversion driver commits no rewrite, hands
      the module back as it was and reports success, and the pass does not
      signal failure.  (The worklist holds one entry per operation; the
      run needs that many pops.) *)
Theorem full_conversion_of_legal_module (fuel : nat) (m : Operation) :
    forallb (isLegal target) (Operation_walk m) = true →
    length (Operation_walk m) ≤ fuel →
    applyConversion Full fuel m target patterns
      = Some (mkOutcome success m [] []) ∧
    runOnOperation (llvmPass fuel) (passStart m)
      = Some (tt,
              mkPassState m false
                [mkCall Full target patterns m (mkOutcome success m [] [])]).
  Proof.
    intros Hl Hf.
    pose proof (applyConversion_legal fuel m target patterns Hl Hf) as Ha.
    split; [exact Ha|].
    rewrite llvmPass_run. cbn [psModule passStart].
    unfold specDriver, applyFullConversion.
    by rewrite Ha.
  Qed.

End FullConversionFacts.

Lemma full_conversion_of_legal_module_witness :
  applyConversion Full 3 Samples.module_llvm
    (addLegalOp [ModuleOp.getOperationName] Samples.llvmTarget)
    [Samples.AllocaOpLowering]
  = Some (mkOutcome success Samples.module_llvm [] []).
Proof.
  apply (full_conversion_of_legal_module Samples.llvmTarget tt
           Samples.noPatterns Samples.noPatterns Samples.noTypedPatterns
           Samples.memrefPatterns Samples.noTypedPatterns 3
           Samples.module_llvm);
    [vm_compute; reflexivity | vm_compute; lia].
Defined.


(** ** Cloning *)

Lemma cloneValues_cons nv v vs :
  cloneValues nv (v :: vs) = mkValue nv (vty v) :: cloneValues (S nv) vs.
Proof.
  unfold cloneValues. cbn. rewrite Nat.add_0_r. f_equal.
  apply imap_ext. intros i x _. cbn. f_equal. lia.
Qed.

Lemma cloneEvents_app a b m nv :
  cloneEvents (a ++ b) m nv =
    let '(ra, (ma, na)) := cloneEvents a m nv in
    let '(rb, s) := cloneEvents b ma na in
    (ra ++ rb, s).
Proof.
  revert m nv. induction a as [|[v|v] a IH]; intros m nv; cbn.
  - by destruct (cloneEvents b m nv).
  - rewrite IH. destruct (cloneEvents a m nv) as [ra [ma na]].
    by destruct (cloneEvents b ma na).
  - rewrite IH. destruct (cloneEvents a _ _) as [ra [ma na]].
    by destruct (cloneEvents b ma na).
Qed.

Lemma cloneEvents_uses vs m nv :
  cloneEvents (Use <$> vs) m nv = (Use <$> (lookupOrDefault m <$> vs), (m, nv)).
Proof. induction vs as [|v vs IH]; cbn; [done|]. by rewrite IH. Qed.

Lemma cloneEvents_defs vs :
  ∀ m nv,
    cloneEvents (Def <$> vs) m nv =
      (Def <$> cloneValues nv vs,
       (mapValues vs (cloneValues nv vs) m, nv + length vs)).
Proof.
  induction vs as [|v vs IH]; intros m nv.
  - cbn. by rewrite Nat.add_0_r.
  - rewrite cloneValues_cons. cbn. rewrite IH.
    by rewrite Nat.add_succ_r.
Qed.

Lemma cloneEvents_app_1 a b m nv :
  (cloneEvents (a ++ b) m nv).1 =
    (cloneEvents a m nv).1 ++
    (cloneEvents b (cloneEvents a m nv).2.1 (cloneEvents a m nv).2.2).1.
Proof.
  rewrite cloneEvents_app. destruct (cloneEvents a m nv) as [ra [ma na]].
  cbn. by destruct (cloneEvents b ma na).
Qed.

Lemma cloneEvents_app_2 a b m nv :
  (cloneEvents (a ++ b) m nv).2 =
    (cloneEvents b (cloneEvents a m nv).2.1 (cloneEvents a m nv).2.2).2.
Proof.
  rewrite cloneEvents_app. destruct (cloneEvents a m nv) as [ra [ma na]].
  cbn. by destruct (cloneEvents b ma na).
Qed.


Lemma clonesLike_app a a' b b' st st1 st2 :
  clonesLike a a' st st1 → clonesLike b b' st1 st2 →
  clonesLike (a ++ b) (a' ++ b') st st2.
Proof.
  intros (-> & Hm & Hn) (-> & Hm' & Hn'). unfold clonesLike.
  rewrite cloneEvents_app_1, cloneEvents_app_2, <- Hm, <- Hn. done.
Qed.

Lemma clonesLike_uses vs st :
  clonesLike (Use <$> vs) (Use <$> (lookupOrDefault (csMapper st) <$> vs)) st st.
Proof. unfold clonesLike. by rewrite cloneEvents_uses. Qed.

Lemma clonesLike_defs vs st no :
  clonesLike (Def <$> vs) (Def <$> cloneValues (csNextValue st) vs) st
    (mkClone (mapValues vs (cloneValues (csNextValue st) vs) (csMapper st))
       (csNextValue st + length vs) no).
Proof. unfold clonesLike. by rewrite cloneEvents_defs. Qed.

(** The clone of a piece of IR visits its occurrences like [cloneEvents]. *)
Lemma clone_events :
  (∀ op st,
     clonesLike (Operation_events op)
       (Operation_events (Operation_clone op st).1) st
       (Operation_clone op st).2) ∧
  (∀ rs st,
     clonesLike (Regions_events rs)
       (Regions_events (Regions_clone rs st).1) st (Regions_clone rs st).2) ∧
  (∀ bs st,
     clonesLike (Blocks_events bs)
       (Blocks_events (Blocks_clone bs st).1) st (Blocks_clone bs st).2) ∧
  (∀ os st,
     clonesLike (Ops_events os)
       (Ops_events (Ops_clone os st).1) st (Ops_clone os st).2).
Proof.
  apply ir_mutind.
  - intros i n opnds res ats rs IH st. cbn.
    specialize (IH (mkClone (csMapper st) (csNextValue st) (S (csNextOp st)))).
    destruct (Regions_clone rs _) as [rs' st1]. cbn in *.
    eapply clonesLike_app; [apply clonesLike_uses|].
    eapply clonesLike_app; [|apply clonesLike_defs].
    exact IH.
  - intros st. done.
  - intros r IHr rs IHrs st. cbn.
    specialize (IHr st). destruct (Blocks_clone r st) as [r' st1].
    specialize (IHrs st1). destruct (Regions_clone rs st1) as [rs' st2].
    cbn in *. by eapply clonesLike_app.
  - intros st. done.
  - intros args body IHb bs IHbs st. cbn.
    specialize (IHb (mkClone
                       (mapValues args (cloneValues (csNextValue st) args)
                          (csMapper st))
                       (csNextValue st + length args) (csNextOp st))).
    destruct (Ops_clone body _) as [body' st1].
    specialize (IHbs st1). destruct (Blocks_clone bs st1) as [bs' st2].
    cbn in *.
    eapply clonesLike_app; [apply clonesLike_defs|].
    by eapply clonesLike_app.
  - intros st. done.
  - intros o IHo os IHos st. cbn.
    specialize (IHo st). destruct (Operation_clone o st) as [o' st1].
    specialize (IHos st1). destruct (Ops_clone os st1) as [os' st2].
    cbn in *. by eapply clonesLike_app.
Qed.

(** The clone has the shape of the original. *)
Lemma clone_erase :
  (∀ op st, Operation_erase (Operation_clone op st).1 = Operation_erase op) ∧
  (∀ rs st, Regions_erase (Regions_clone rs st).1 = Regions_erase rs) ∧
  (∀ bs st, Blocks_erase (Blocks_clone bs st).1 = Blocks_erase bs) ∧
  (∀ os st, Ops_erase (Ops_clone os st).1 = Ops_erase os).
Proof.
  assert (∀ nv vs, eraseValue <$> cloneValues nv vs = eraseValue <$> vs) as Hc.
  { intros nv vs. unfold cloneValues. rewrite fmap_imap.
    apply list_eq. intros i. rewrite list_lookup_imap, list_lookup_fmap.
    by destruct (vs !! i). }
  apply ir_mutind; cbn.
  - intros i n opnds res ats rs IH st.
    specialize (IH (mkClone (csMapper st) (csNextValue st) (S (csNextOp st)))).
    destruct (Regions_clone rs _) as [rs' st1]. cbn in *.
    rewrite IH, Hc. f_equal. rewrite <- list_fmap_compose. done.
  - done.
  - intros r IHr rs IHrs st.
    specialize (IHr st). destruct (Blocks_clone r st) as [r' st1].
    specialize (IHrs st1). destruct (Regions_clone rs st1) as [rs' st2].
    cbn in *. by rewrite IHr, IHrs.
  - done.
  - intros args body IHb bs IHbs st.
    specialize (IHb (mkClone
                       (mapValues args (cloneValues (csNextValue st) args)
                          (csMapper st))
                       (csNextValue st + length args) (csNextOp st))).
    destruct (Ops_clone body _) as [body' st1].
    specialize (IHbs st1). destruct (Blocks_clone bs st1) as [bs' st2].
    cbn in *. by rewrite Hc, IHb, IHbs.
  - done.
  - intros o IHo os IHos st.
    specialize (IHo st). destruct (Operation_clone o st) as [o' st1].
    specialize (IHos st1). destruct (Ops_clone os st1) as [os' st2].
    cbn in *. by rewrite IHo, IHos.
Qed.







(** ** More on the patterns *)

Lemma length_freshResults nv ts : length (freshResults nv ts) = length ts.
Proof. unfold freshResults. apply length_imap. Qed.

Lemma fmap_vty_freshResults nv ts : vty <$> freshResults nv ts = ts.
Proof.
  unfold freshResults. rewrite fmap_imap. apply list_eq. intros i.
  rewrite list_lookup_imap. by destruct (ts !! i).
Qed.

(** X1: the return lowering goes through on every operation: it inserts one
    [func.return] with the operands of the original, in order, and with
    one result per result of the original, of the same types. *)
Theorem return_lowering_total (op : Operation) (rw : RewriterState) :
  ∃ new,
    CIRReturnLowering.matchAndRewrite op rw
      = Some (success,
              mkRewriter (nextValue rw + length (results op)) (S (nextOp rw))
                (inserted rw ++ [new]) (Some (results new))) ∧
    name new = func.ReturnOp.getOperationName ∧
    operands new = operands op ∧
    getResultTypes new = getResultTypes op ∧
    attrs new = [] ∧ regions new = RNil.
Proof.
  assert (length (results op)
          = length (osTypes (func.ReturnOp.build (getResultTypes op)
                               (operands op)))) as Hlen.
  { cbn. unfold getResultTypes. by rewrite length_fmap. }
  destruct (replaceOpWithNewOp_total op _ rw Hlen) as [[new rw1] Hr].
  exists new. unfold CIRReturnLowering.matchAndRewrite.
  unfold mbind at 1, PatternRewriter_bind at 1. rewrite Hr.
  apply replaceOpWithNewOp_Some in Hr as (-> & _ & ->). cbn.
  unfold getResultTypes at 1 5. rewrite length_fmap.
  split_and!; try reflexivity.
  apply fmap_vty_freshResults.
Qed.

(** X2: the constant lowering goes through exactly on an operation with one
    result and a [value] attribute; it then inserts one [arith.constant]
    without operands whose [value] attribute is the one of the original
    and whose single result has the type of the original result. *)
Theorem constant_lowering_value_and_type (op : Operation)
    (rw : RewriterState) :
  (is_Some (CIRConstantLowering.matchAndRewrite op rw) ↔
   length (results op) = 1 ∧ is_Some (getAttr "value" op)) ∧
  (∀ r rw',
     CIRConstantLowering.matchAndRewrite op rw = Some (r, rw') →
     ∃ old new res,
       r = success ∧ results op = [old] ∧
       inserted rw' = inserted rw ++ [new] ∧
       name new = arith.ConstantOp.getOperationName ∧
       operands new = [] ∧ results new = [res] ∧
       vty res = vty old ∧
       getAttr "value" new = getAttr "value" op ∧
       replacement rw' = Some [res]).
Proof.
  assert (∀ r rw',
            CIRConstantLowering.matchAndRewrite op rw = Some (r, rw') →
            ∃ old new res,
              r = success ∧ results op = [old] ∧
              inserted rw' = inserted rw ++ [new] ∧
              name new = arith.ConstantOp.getOperationName ∧
              operands new = [] ∧ results new = [res] ∧
              vty res = vty old ∧
              getAttr "value" new = getAttr "value" op ∧
              replacement rw' = Some [res]) as Hfwd.
  { unfold CIRConstantLowering.matchAndRewrite. intros r rw' H.
    apply bind_asserted_Some in H as (ty & Hty & H).
    apply bind_asserted_Some in H as (v & Hv & H).
    apply replace_then_success in H as (new & -> & -> & Hlen & Hi & Hr).
    unfold cir.ConstantOp.getType in Hty. cbn in Hlen.
    destruct (results op) as [|old [|]] eqn:Hres; try discriminate.
    injection Hty as <-.
    eexists old, _, _. split_and!; [done | done | exact Hi | done.. | | exact Hr].
    unfold cir.ConstantOp.value in Hv. cbn. by rewrite Hv. }
  split; [|exact Hfwd]. split.
  - intros [[r rw'] H]. destruct (Hfwd r rw' H)
      as (old & new & res & _ & Hres & _ & _ & _ & _ & _ & Hv & _).
    rewrite Hres. split; [done|].
    unfold CIRConstantLowering.matchAndRewrite in H.
    apply bind_asserted_Some in H as (ty & _ & H).
    apply bind_asserted_Some in H as (v & Hv' & _). by exists v.
  - intros [Hlen [v Hv]].
    unfold CIRConstantLowering.matchAndRewrite, cir.ConstantOp.getType,
      cir.ConstantOp.value.
    destruct (results op) as [|old [|]] eqn:Hres; try discriminate.
    rewrite Hv. cbn. unfold asserted, mbind, PatternRewriter_bind.
    destruct (replaceOpWithNewOp_total op
                (arith.ConstantOp.build (vty old) v) rw) as [[new rw1] ->];
      [by rewrite Hres|]. eauto.
Qed.

Lemma constant_lowering_value_and_type_witness :
  ∃ new,
    name new = arith.ConstantOp.getOperationName ∧
    getAttr "value" new = Some (IntegerAttr Samples.i32 42).
Proof.
  destruct (proj2 (constant_lowering_value_and_type Inputs.cst_42 Samples.rw0)
              success
              (mkRewriter 101 101
                 [mkOp 100 "arith.constant" [] [mkValue 100 Samples.i32]
                    [("value", IntegerAttr Samples.i32 42)] RNil]
                 (Some [mkValue 100 Samples.i32]))
              eq_refl)
    as (old & new & res & _ & _ & _ & Hn & _ & _ & _ & Hv & _).
  exists new. split; assumption.
Defined.

Lemma call_lowering_rewrites_witness :
  ∃ new,
    operands new = operands Samples.call_foo_named ∧
    getResultTypes new = getResultTypes Samples.call_foo_named ∧
    getAttr "callee" new = Some (FlatSymbolRefAttr "bar").
Proof.
  destruct (call_lowering_rewrites Samples.call_foo_named Samples.rw0
              (mkRewriter 101 101
                 [mkOp 100 "func.call"
                    [mkValue 1 Samples.i32; mkValue 2 Samples.i32;
                     mkValue 3 Samples.i32]
                    [mkValue 100 Samples.i32]
                    [("callee", FlatSymbolRefAttr "bar")] RNil]
                 (Some [mkValue 100 Samples.i32]))
              success eq_refl)
    as (new & _ & _ & _ & Ho & Ht & Hc).
  exists new. split_and!; assumption.
Defined.



(** The copies of the definitions take the next handles in order and keep
    the types, whatever the shape of the sequence. *)
Lemma cloneEvents_defs_seq :
  ∀ es (m : gmap nat Value) nv,
    vid <$> defsOf (cloneEvents es m nv).1 = seq nv (length (defsOf es)) ∧
    vty <$> defsOf (cloneEvents es m nv).1 = vty <$> defsOf es ∧
    (cloneEvents es m nv).2.2 = nv + length (defsOf es).
Proof.
  induction es as [|[v|v] es IH]; intros m nv.
  - cbn. split_and!; [done | done | lia].
  - cbn [cloneEvents]. specialize (IH m nv).
    destruct (cloneEvents es m nv) as [r [m1 n1]]. exact IH.
  - cbn [cloneEvents].
    specialize (IH (<[vid v := mkValue nv (vty v)]> m) (S nv)).
    destruct (cloneEvents es _ (S nv)) as [r [m1 n1]].
    destruct IH as (Hid & Hty & Hn). cbn [fst snd] in Hid, Hty, Hn |- *.
    change (defsOf (Def v :: es)) with (v :: defsOf es).
    change (defsOf (Def (mkValue nv (vty v)) :: r))
      with (mkValue nv (vty v) :: defsOf r).
    rewrite !fmap_cons, Hid, Hty, Hn. cbn [length seq vid vty].
    split_and!; [done | done | lia].
Qed.

(** The operations of a clone carry the next operation handles in
    pre-order. *)
Lemma clone_walk :
  (∀ op st,
     oid <$> Operation_walk (Operation_clone op st).1
       = seq (csNextOp st) (length (Operation_walk op)) ∧
     csNextOp (Operation_clone op st).2
       = csNextOp st + length (Operation_walk op)) ∧
  (∀ rs st,
     oid <$> Regions_walk (Regions_clone rs st).1
       = seq (csNextOp st) (length (Regions_walk rs)) ∧
     csNextOp (Regions_clone rs st).2
       = csNextOp st + length (Regions_walk rs)) ∧
  (∀ bs st,
     oid <$> Blocks_walk (Blocks_clone bs st).1
       = seq (csNextOp st) (length (Blocks_walk bs)) ∧
     csNextOp (Blocks_clone bs st).2
       = csNextOp st + length (Blocks_walk bs)) ∧
  (∀ os st,
     oid <$> Ops_walk (Ops_clone os st).1
       = seq (csNextOp st) (length (Ops_walk os)) ∧
     csNextOp (Ops_clone os st).2 = csNextOp st + length (Ops_walk os)).
Proof.
  apply ir_mutind.
  - intros i n opnds res ats rs IH st. cbn.
    specialize (IH (mkClone (csMapper st) (csNextValue st) (S (csNextOp st)))).
    destruct (Regions_clone rs _) as [rs' st1]. cbn in *.
    destruct IH as [IH1 IH2]. rewrite IH1. split; [done|lia].
  - intros st. cbn. split; [done|lia].
  - intros r IHr rs IHrs st. cbn.
    specialize (IHr st). destruct (Blocks_clone r st) as [r' st1].
    specialize (IHrs st1). destruct (Regions_clone rs st1) as [rs' st2].
    cbn in *. destruct IHr as [H1 H2], IHrs as [H3 H4].
    rewrite fmap_app, length_app, seq_app, H1, H3, H2, H4.
    split; [done|lia].
  - intros st. cbn. split; [done|lia].
  - intros args body IHb bs IHbs st. cbn.
    specialize (IHb (mkClone
                       (mapValues args (cloneValues (csNextValue st) args)
                          (csMapper st))
                       (csNextValue st + length args) (csNextOp st))).
    destruct (Ops_clone body _) as [body' st1].
    specialize (IHbs st1). destruct (Blocks_clone bs st1) as [bs' st2].
    cbn in *. destruct IHb as [H1 H2], IHbs as [H3 H4].
    rewrite fmap_app, length_app, seq_app, H1, H3, H2, H4.
    split; [done|lia].
  - intros st. cbn. split; [done|lia].
  - intros o IHo os IHos st. cbn.
    specialize (IHo st). destruct (Operation_clone o st) as [o' st1].
    specialize (IHos st1). destruct (Ops_clone os st1) as [os' st2].
    cbn in *. destruct IHo as [H1 H2], IHos as [H3 H4].
    rewrite fmap_app, length_app, seq_app, H1, H3, H2, H4.
    split; [done|lia].
Qed.

(** X5: whenever the function lowering comes back, on any body, it has
    inserted one [func.func] that carries the symbol name and the function
    type of the original and no other attribute, and has replaced the
    original by no values.  The new body has the shape of the original
    one; its operations carry the operation handles that follow the one of
    the new function, in pre-order, and the values it defines carry the
    next value handles in order, with the types of the originals; the
    allocators of the rewriter have moved on by exactly these numbers. *)
Theorem func_lowering_fresh_copy (op : Operation) (nv no : nat)
    (r : LogicalResult) (rw' : RewriterState) :
  CIRFuncLowering.matchAndRewrite op (mkRewriter nv no [] None)
    = Some (r, rw') →
  ∃ symName type src dst,
    cir.FuncOp.getName op = Some symName ∧
    cir.FuncOp.getFunctionType op = Some type ∧
    cir.FuncOp.body op = Some src ∧
    results op = [] ∧ r = success ∧
    inserted rw' =
      [mkOp no func.FuncOp.getOperationName [] []
         [(SymbolTable.getSymbolAttrName, StringAttr symName);
          ("function_type", TypeAttr type)]
         (RCons dst RNil)] ∧
    replacement rw' = Some [] ∧
    Blocks_erase dst = Blocks_erase src ∧
    oid <$> Blocks_walk dst = seq (S no) (length (Blocks_walk src)) ∧
    nextOp rw' = S no + length (Blocks_walk src) ∧
    vid <$> defsOf (Blocks_events dst)
      = seq nv (length (defsOf (Blocks_events src))) ∧
    vty <$> defsOf (Blocks_events dst) = vty <$> defsOf (Blocks_events src) ∧
    nextValue rw' = nv + length (defsOf (Blocks_events src)).
Proof.
  unfold CIRFuncLowering.matchAndRewrite. intros H.
  apply bind_asserted_Some in H as (symName & Hname & H).
  apply bind_asserted_Some in H as (type & Htype & H).
  unfold mbind at 1, PatternRewriter_bind at 1 in H.
  destruct (replaceOpWithNewOp op _ _) as [[fn rw1]|] eqn:Hr; [|discriminate].
  apply replaceOpWithNewOp_Some in Hr as (-> & Hlen & ->).
  apply bind_asserted_Some in H as (src & Hbody & H).
  cbn in Hlen. apply nil_length_inv in Hlen.
  unfold mbind, PatternRewriter_bind, Region_cloneInto in H. cbn in H.
  rewrite Nat.add_0_r in H.
  destruct (Blocks_clone src (mkClone ∅ nv (S no))) as [dst st] eqn:Hclone.
  cbn in H. rewrite Nat.eqb_refl in H. cbn in H. injection H as <- <-.
  pose proof (proj1 (proj2 (proj2 clone_erase)) src (mkClone ∅ nv (S no)))
    as Herase.
  pose proof (proj1 (proj2 (proj2 clone_walk)) src (mkClone ∅ nv (S no)))
    as [Hoid Hno].
  destruct (proj1 (proj2 (proj2 clone_events)) src (mkClone ∅ nv (S no)))
    as (Hev & _ & Hn).
  destruct (cloneEvents_defs_seq (Blocks_events src) ∅ nv)
    as (Hid & Hty & Hnv).
  rewrite Hclone in Herase, Hoid, Hno, Hev, Hn. cbn in *.
  exists symName, type, src, dst.
  split_and!; try done.
  - by rewrite Hev.
  - by rewrite Hev.
  - by rewrite Hn.
Qed.

Lemma func_lowering_fresh_copy_witness :
  wellScoped
    (default BNil (cir.FuncOp.body Inputs.g)) = false ∧
  ∃ dst,
    oid <$> Blocks_walk dst = [101; 102; 103] ∧
    vid <$> defsOf (Blocks_events dst) = [100].
Proof.
  split; [vm_compute; reflexivity|].
  destruct (func_lowering_fresh_copy Inputs.g 100 100 success
              (mkRewriter 101 104
                 [mkOp 100 "func.func" [] []
                    [("sym_name", StringAttr "g");
                     ("function_type", TypeAttr (FunctionType [] []))]
                    (RCons
                       (BCons []
                          (OCons (mkOp 101 "cir.use" [mkValue 7 Samples.i32]
                                    [] [] RNil)
                          (OCons (mkOp 102 "cir.cst" []
                                    [mkValue 100 Samples.i32]
                                    [("value", IntegerAttr Samples.i32 1)]
                                    RNil)
                          (OCons (mkOp 103 "cir.return" [] [] [] RNil) ONil)))
                          BNil)
                       RNil)]
                 (Some [])) eq_refl)
    as (symName & type & src & dst & _ & _ & Hb & _ & _ & _ & _ & _ & Ho & _
        & Hv & _).
  exists dst. injection Hb as <-. split; assumption.
Defined.

(** ** The targets and pattern sets of the passes *)

Ltac target_unfold :=
  unfold isLegal, isIllegal, classify, fnTarget, retTarget, memrefTarget,
    addIllegalOp, addLegalOp, addLegalDialect, setOpAction, emptyTarget,
    ModuleOp.getOperationName, func.FuncOp.getOperationName,
    func.ReturnOp.getOperationName, func.CallOp.getOperationName,
    cir.FuncOp.getOperationName, cir.ReturnOp.getOperationName,
    cir.CallOp.getOperationName;
  cbn [foldl opActions dialectActions].

Ltac lookup_cases :=
  repeat (rewrite lookup_insert; case_decide);
  rewrite ?lookup_empty.

Ltac target_close :=
  split;
  [ intros; try done; auto 10
  | intros; repeat match goal with H : _ ∨ _ |- _ => destruct H end;
    try done; congruence ].

(** X6: the two targets of the function-shape pass: the first run declares
    [cir.func], and nothing else, illegal and the module and [func.func],
    and nothing else, legal; the second run declares [cir.return] and
    [cir.call] illegal and the module, [func.return] and [func.call] legal.
    Every operation a run declares illegal has a pattern rooted at it in
    the pattern set of that run. *)
Theorem func_stage_targets (op : Operation) :
  (isIllegal fnTarget op = true ↔ name op = "cir.func") ∧
  (isLegal fnTarget op = true ↔
   name op = "builtin.module" ∨ name op = "func.func") ∧
  (isIllegal retTarget op = true ↔
   name op = "cir.return" ∨ name op = "cir.call") ∧
  (isLegal retTarget op = true ↔
   name op = "builtin.module" ∨ name op = "func.return"
   ∨ name op = "func.call") ∧
  (isIllegal fnTarget op = true →
   ∃ p, p ∈ fnPatterns ∧ getRootKind p = name op) ∧
  (isIllegal retTarget op = true →
   ∃ p, p ∈ retPatterns ∧ getRootKind p = name op).
Proof.
  assert (isIllegal fnTarget op = true ↔ name op = "cir.func") as H1.
  { target_unfold. lookup_cases; target_close. }
  assert (isIllegal retTarget op = true ↔
          name op = "cir.return" ∨ name op = "cir.call") as H2.
  { target_unfold. lookup_cases; target_close. }
  split_and!; [exact H1 | | exact H2 | | | ].
  - target_unfold. lookup_cases; target_close.
  - target_unfold. lookup_cases; target_close.
  - intros Hi. apply H1 in Hi. exists CIRFuncLowering.
    split; [apply list_elem_of_here | by rewrite Hi].
  - intros Hi. apply H2 in Hi as [Hi|Hi].
    + exists CIRReturnLowering. split; [apply list_elem_of_here|by rewrite Hi].
    + exists CIRCallLowering.
      split; [apply list_elem_of_further, list_elem_of_here|by rewrite Hi].
Qed.

Lemma func_stage_targets_witness :
  ∃ p, p ∈ retPatterns ∧ getRootKind p = "cir.return".
Proof.
  apply (proj2 (proj2 (proj2 (proj2 (proj2
           (func_stage_targets Inputs.return_2)))))).
  reflexivity.
Defined.

(** X8: the target of the memory pass declares no operation illegal; it
    declares legal the module and the operations of the affine, arith,
    memref and func dialects, and nothing else. *)
Theorem memref_stage_target (op : Operation) :
  isIllegal memrefTarget op = false ∧
  (isLegal memrefTarget op = true ↔
   name op = "builtin.module" ∨
   getDialectNamespace (name op) ∈ ["affine"; "arith"; "memref"; "func"]).
Proof.
  split.
  - target_unfold. lookup_cases; try done.
  - target_unfold. rewrite !elem_of_cons, elem_of_nil.
    lookup_cases; target_close.
Qed.

Lemma memref_stage_target_witness :
  isLegal memrefTarget Samples.module_empty = true.
Proof.
  apply (proj2 (memref_stage_target Samples.module_empty)).
  left. reflexivity.
Defined.

(** X11: the target of the final pass: whatever the target of the conversion
    library says, the module is legal, and the verdict on every other
    operation is the one of that target. *)
Theorem llvm_stage_target (LLVMConversionTarget : ConversionTarget)
    (op : Operation) :
  (name op = "builtin.module" →
   isLegal (addLegalOp [ModuleOp.getOperationName] LLVMConversionTarget) op
     = true) ∧
  (name op ≠ "builtin.module" →
   classify (addLegalOp [ModuleOp.getOperationName] LLVMConversionTarget) op
     = classify LLVMConversionTarget op).
Proof.
  unfold isLegal, classify, addLegalOp, setOpAction,
    ModuleOp.getOperationName.
  cbn [foldl opActions dialectActions]. split.
  - intros ->. by rewrite lookup_insert_eq.
  - intros Hne. by rewrite lookup_insert_ne.
Qed.

Lemma llvm_stage_target_witness :
  isLegal (addLegalOp [ModuleOp.getOperationName]
             (addIllegalOp ["builtin.module"] Samples.llvmTarget))
    Samples.module_empty = true.
Proof.
  apply (proj1 (llvm_stage_target
                  (addIllegalOp ["builtin.module"] Samples.llvmTarget)
                  Samples.module_empty)).
  reflexivity.
Defined.

(** What a pattern of the memory pass leaves behind when it is run by the
    driver (a rewriter with nothing inserted yet): one operation without
    regions, of a known name. *)
Lemma memref_pattern_product (p : RewritePattern) (op : Operation)
    (opnds : list Value) (nv no : nat) (r : LogicalResult)
    (rw' : RewriterState) :
  p ∈ memrefPatterns →
  matchAndRewrite p op opnds (mkRewriter nv no [] None) = Some (r, rw') →
  ∃ new,
    r = success ∧ inserted rw' = [new] ∧ regions new = RNil ∧
    ((getRootKind p = "cir.alloca" ∧ name new = "memref.alloca") ∨
     (getRootKind p = "cir.load" ∧ name new = "memref.load") ∨
     (getRootKind p = "cir.store" ∧ name new = "memref.store") ∨
     (getRootKind p = "cir.cst" ∧ name new = "arith.constant")).
Proof.
  unfold memrefPatterns, populateCIRToMemRefConversionPatterns, add.
  cbn [app]. rewrite !elem_of_cons, elem_of_nil.
  intros [->|[->|[->|[->|[]]]]]; cbn [matchAndRewrite CIRAllocaLowering
    CIRLoadLowering CIRStoreLowering CIRConstantLowering OpRewritePattern
    ConversionPattern]; intros H.
  - unfold CIRAllocaLowering.matchAndRewrite in H.
    apply bind_asserted_Some in H as (elt & _ & H).
    apply replace_then_success in H as (new & -> & -> & _ & Hi & _).
    eexists. split_and!; [done | exact Hi | done | by left].
  - unfold CIRLoadLowering.matchAndRewrite in H.
    apply bind_asserted_Some in H as (addr & _ & H).
    apply bind_asserted_Some in H as (s & Hs & H).
    apply replace_then_success in H as (new & -> & -> & _ & Hi & _).
    unfold memref.LoadOp.build in Hs.
    destruct (vty addr); try discriminate. injection Hs as <-.
    eexists. split_and!; [done | exact Hi | done | by right; left].
  - unfold CIRStoreLowering.matchAndRewrite in H.
    apply bind_asserted_Some in H as (value & _ & H).
    apply bind_asserted_Some in H as (addr & _ & H).
    apply replace_then_success in H as (new & -> & -> & _ & Hi & _).
    eexists. split_and!; [done | exact Hi | done | by right; right; left].
  - unfold CIRConstantLowering.matchAndRewrite in H.
    apply bind_asserted_Some in H as (ty & _ & H).
    apply bind_asserted_Some in H as (v & _ & H).
    apply replace_then_success in H as (new & -> & -> & _ & Hi & _).
    eexists. split_and!; [done | exact Hi | done | by right; right; right].
Qed.

(** X9: the patterns [populateCIRToMemRefConversionPatterns] adds go behind
    the patterns already in the set; at most one of them is rooted at any
    one operation, and none at an operation that the target of the memory
    pass declares legal.  What such a pattern inserts when the driver runs
    it is one operation that is legal for that target, so a product of the
    memory pass needs no further rewrite in that pass. *)
Theorem memref_stage_patterns (patterns : RewritePatternSet) (op : Operation) :
  populateCIRToMemRefConversionPatterns patterns = patterns ++ memrefPatterns ∧
  (∀ p q, p ∈ memrefPatterns → q ∈ memrefPatterns →
          getRootKind p = name op → getRootKind q = name op → p = q) ∧
  (∀ p, p ∈ memrefPatterns → getRootKind p = name op →
        isLegal memrefTarget op = false) ∧
  (∀ p opnds nv no r rw',
     p ∈ memrefPatterns →
     matchAndRewrite p op opnds (mkRewriter nv no [] None) = Some (r, rw') →
     ∃ new, r = success ∧ inserted rw' = [new] ∧
            isLegal memrefTarget new = true).
Proof.
  split_and!.
  - reflexivity.
  - unfold memrefPatterns, populateCIRToMemRefConversionPatterns, add.
    cbn [app]. intros p q. rewrite !elem_of_cons, !elem_of_nil.
    intros [->|[->|[->|[->|[]]]]] [->|[->|[->|[->|[]]]]];
      cbn [getRootKind CIRAllocaLowering CIRLoadLowering CIRStoreLowering
           CIRConstantLowering OpRewritePattern ConversionPattern];
      intros H1 H2; try reflexivity; rewrite <- H1 in H2; cbv in H2;
      discriminate H2.
  - unfold memrefPatterns, populateCIRToMemRefConversionPatterns, add.
    cbn [app]. intros p. rewrite !elem_of_cons, elem_of_nil.
    intros [->|[->|[->|[->|[]]]]]; cbn; intros Hn;
      unfold isLegal, classify; rewrite <- Hn; reflexivity.
  - intros p opnds nv no r rw' Hp H.
    destruct (memref_pattern_product p op opnds nv no r rw' Hp H)
      as (new & -> & Hi & _ & Hn).
    exists new. split_and!; [done | done | ].
    unfold isLegal, classify.
    destruct Hn as [[_ ->]|[[_ ->]|[[_ ->]|[_ ->]]]]; reflexivity.
Qed.

Lemma memref_stage_patterns_witness :
  isLegal memrefTarget Samples.alloca_i32 = false ∧
  ∃ new rw',
    matchAndRewrite CIRAllocaLowering Samples.alloca_i32 []
      (mkRewriter 100 100 [] None) = Some (success, rw') ∧
    inserted rw' = [new] ∧ isLegal memrefTarget new = true.
Proof.
  destruct (memref_stage_patterns [] Samples.alloca_i32)
    as (_ & _ & Hroot & Hprod).
  split.
  - apply (Hroot CIRAllocaLowering); [apply list_elem_of_here | reflexivity].
  - destruct (Hprod CIRAllocaLowering [] 100 100 success
                (mkRewriter 101 101
                   [mkOp 100 "memref.alloca" []
                      [mkValue 100 (MemRefType [] Samples.i32)]
                      [("alignment", IntegerAttr Samples.i64 4)] RNil]
                   (Some [mkValue 100 (MemRefType [] Samples.i32)])))
      as (new & _ & Hi & Hl); [apply list_elem_of_here | reflexivity | ].
    exists new, (mkRewriter 101 101
                   [mkOp 100 "memref.alloca" []
                      [mkValue 100 (MemRefType [] Samples.i32)]
                      [("alignment", IntegerAttr Samples.i64 4)] RNil]
                   (Some [mkValue 100 (MemRefType [] Samples.i32)])).
    split_and!; [reflexivity | exact Hi | exact Hl].
Defined.

(** X10: the dialects of what the memory pass produces: a buffer operation is
    of the memref dialect, which the pass declares as a dependency; the
    constant is of the arith dialect, which the pass does not declare and
    which is among the dialects cir-tool registers. *)
Theorem memref_stage_dialects (driver : ConversionDriver) (p : RewritePattern)
    (op : Operation) (opnds : list Value) (nv no : nat) (r : LogicalResult)
    (rw' : RewriterState) :
  p ∈ memrefPatterns →
  matchAndRewrite p op opnds (mkRewriter nv no [] None) = Some (r, rw') →
  ∃ new,
    inserted rw' = [new] ∧
    (getDialectNamespace (name new)
       ∈ getDependentDialects (createConvertCIRToMemRefPass driver) ∨
     (getRootKind p = "cir.cst" ∧
      getDialectNamespace (name new) = "arith" ∧
      ("arith" ∉ getDependentDialects (createConvertCIRToMemRefPass driver)) ∧
      "arith" ∈ cir_tool.main_registry)).
Proof.
  intros Hp H.
  destruct (memref_pattern_product p op opnds nv no r rw' Hp H)
    as (new & _ & Hi & _ & Hn).
  exists new. split; [exact Hi|].
  destruct Hn as [[_ ->]|[[_ ->]|[[_ ->]|[Hroot ->]]]].
  - left. cbn. apply list_elem_of_here.
  - left. cbn. apply list_elem_of_here.
  - left. cbn. apply list_elem_of_here.
  - right. split_and!; [exact Hroot | reflexivity | | ].
    + cbn. rewrite !elem_of_cons, elem_of_nil. intros [|[|[|[]]]]; discriminate.
    + unfold cir_tool.main_registry, cir_tool.registry_insert. cbn [app].
      apply list_elem_of_further, list_elem_of_here.
Qed.

Lemma memref_stage_dialects_witness :
  ∃ new,
    name new = "arith.constant" ∧
    "arith" ∉ getDependentDialects
                (createConvertCIRToMemRefPass Samples.failingDriver).
Proof.
  destruct (memref_stage_dialects Samples.failingDriver CIRConstantLowering
              Inputs.cst_42 [] 100 100 success
              (mkRewriter 101 101
                 [mkOp 100 "arith.constant" [] [mkValue 100 Samples.i32]
                    [("value", IntegerAttr Samples.i32 42)] RNil]
                 (Some [mkValue 100 Samples.i32])))
    as (new & Hi & [Hd|(_ & _ & Hn & _)]);
    [ unfold memrefPatterns, populateCIRToMemRefConversionPatterns, add;
      cbn [app]; do 3 apply list_elem_of_further; apply list_elem_of_here
    | reflexivity | | ].
  - injection Hi as <-. cbn in Hd.
    rewrite !elem_of_cons, elem_of_nil in Hd.
    destruct Hd as [Hd|[Hd|[Hd|[]]]]; discriminate.
  - exists new. injection Hi as <-. split; [reflexivity | exact Hn].
Defined.

Lemma func_lowering_inserted (op : Operation) (nv no : nat)
    (r : LogicalResult) (rw' : RewriterState) :
  CIRFuncLowering.matchAndRewrite op (mkRewriter nv no [] None)
    = Some (r, rw') →
  r = success ∧
  ∃ ats rs, inserted rw' = [mkOp no "func.func" [] [] ats rs].
Proof.
  unfold CIRFuncLowering.matchAndRewrite. intros H.
  apply bind_asserted_Some in H as (symName & _ & H).
  apply bind_asserted_Some in H as (type & _ & H).
  unfold mbind at 1, PatternRewriter_bind at 1 in H.
  destruct (replaceOpWithNewOp op _ _) as [[fn rw1]|] eqn:Hr; [|discriminate].
  apply replaceOpWithNewOp_Some in Hr as (-> & _ & ->).
  apply bind_asserted_Some in H as (src & _ & H).
  unfold mbind, PatternRewriter_bind, Region_cloneInto in H. cbn in H.
  destruct (Blocks_clone src _) as [dst st].
  cbn in H. rewrite Nat.eqb_refl in H. cbn in H. injection H as <- <-.
  split; [done|]. eexists _, _. reflexivity.
Qed.

(** X7: what the patterns of the function-shape pass insert when the driver
    runs them is one operation each, legal for the target of the run the
    pattern is registered in and of the func dialect, which the pass
    declares as a dependency: [func.func] in the first run, [func.return]
    or [func.call] in the second. *)
Theorem func_stage_products (driver : ConversionDriver) (op : Operation)
    (opnds : list Value) (nv no : nat) (r : LogicalResult)
    (rw' : RewriterState) :
  (∀ p, p ∈ fnPatterns →
        matchAndRewrite p op opnds (mkRewriter nv no [] None)
          = Some (r, rw') →
        ∃ new, r = success ∧ inserted rw' = [new] ∧
               name new = "func.func" ∧
               isLegal fnTarget new = true ∧
               getDialectNamespace (name new)
                 ∈ getDependentDialects (createConvertCIRToFuncPass driver)) ∧
  (∀ p, p ∈ retPatterns →
        matchAndRewrite p op opnds (mkRewriter nv no [] None)
          = Some (r, rw') →
        ∃ new, r = success ∧ inserted rw' = [new] ∧
               (name new = "func.return" ∨ name new = "func.call") ∧
               regions new = RNil ∧
               isLegal retTarget new = true ∧
               getDialectNamespace (name new)
                 ∈ getDependentDialects (createConvertCIRToFuncPass driver)).
Proof.
  split.
  - unfold fnPatterns, add. cbn [app]. intros p.
    rewrite elem_of_cons, elem_of_nil. intros [->|[]].
    cbn [matchAndRewrite CIRFuncLowering OpRewritePattern]. intros H.
    apply func_lowering_inserted in H as (-> & ats & rs & Hi).
    eexists. split_and!; [done | exact Hi | done | reflexivity | ].
    cbn. apply list_elem_of_further, list_elem_of_here.
  - unfold retPatterns, add. cbn [app]. intros p.
    rewrite !elem_of_cons, elem_of_nil. intros [->|[->|[]]];
      cbn [matchAndRewrite CIRReturnLowering CIRCallLowering
           OpRewritePattern]; intros H.
    + unfold CIRReturnLowering.matchAndRewrite in H.
      apply replace_then_success in H as (new & -> & -> & _ & Hi & _).
      eexists. split_and!; [done | exact Hi | by left | done | reflexivity | ].
      cbn. apply list_elem_of_further, list_elem_of_here.
    + unfold CIRCallLowering.matchAndRewrite in H.
      apply bind_asserted_Some in H as (callee & _ & H).
      apply replace_then_success in H as (new & -> & -> & _ & Hi & _).
      eexists. split_and!; [done | exact Hi | by right | done | reflexivity | ].
      cbn. apply list_elem_of_further, list_elem_of_here.
Qed.

Lemma func_stage_products_witness :
  ∃ new,
    name new = "func.func" ∧ isLegal fnTarget new = true ∧
    isLegal fnTarget Samples.f = false.
Proof.
  destruct (proj1 (func_stage_products Samples.failingDriver Samples.f []
                     100 100 success
                     (mkRewriter 103 105
                        [mkOp 100 "func.func" [] []
                           [("sym_name", StringAttr "f");
                            ("function_type",
                             TypeAttr (FunctionType [Samples.i32]
                                         [Samples.i32]))]
                           (RCons
                              (BCons [mkValue 100 Samples.i32]
                                 (OCons
                                    (mkOp 101 "cir.alloca" []
                                       [mkValue 101 Samples.ptr_i32]
                                       [("type", TypeAttr Samples.i32);
                                        ("alignment",
                                         IntegerAttr Samples.i64 4)] RNil)
                                 (OCons
                                    (mkOp 102 "cir.store"
                                       [mkValue 100 Samples.i32;
                                        mkValue 101 Samples.ptr_i32]
                                       [] [] RNil)
                                 (OCons
                                    (mkOp 103 "cir.load"
                                       [mkValue 101 Samples.ptr_i32]
                                       [mkValue 102 Samples.i32] [] RNil)
                                 (OCons
                                    (mkOp 104 "cir.return"
                                       [mkValue 102 Samples.i32] [] [] RNil)
                                    ONil))))
                                 BNil)
                              RNil)]
                        (Some [])))
              CIRFuncLowering)
    as (new & _ & _ & Hn & Hl & _);
    [apply list_elem_of_here | vm_compute; reflexivity | ].
  exists new. split_and!; [exact Hn | exact Hl | reflexivity].
Defined.

(** ** More on lowerFromCIRToLLVMIR *)

Section LoweringFacts.
Context (driver : ConversionDriver).
Context (LLVMConversionTarget : ConversionTarget).
Context {LLVMTypeConverter : Type} (typeConverter : LLVMTypeConverter).
Context (populateAffineToStdConversionPatterns
         populateSCFToControlFlowConversionPatterns
           : RewritePatternSet → RewritePatternSet).
Context (populateArithmeticToLLVMConversionPatterns
         populateMemRefToLLVMConversionPatterns
         populateFuncToLLVMConversionPatterns
           : LLVMTypeConverter → RewritePatternSet → RewritePatternSet).
Context {LLVMModule : Type}.
Context (verify : Operation → LogicalResult).
Context (translateModuleToLLVMIR : Operation → option LLVMModule).

Local Abbreviation pm :=
  (lowerFromCIRToLLVMIR_pm driver LLVMConversionTarget typeConverter
     populateAffineToStdConversionPatterns
     populateSCFToControlFlowConversionPatterns
     populateArithmeticToLLVMConversionPatterns
     populateMemRefToLLVMConversionPatterns
     populateFuncToLLVMConversionPatterns)
  (only parsing).
Local Abbreviation lower :=
  (lowerFromCIRToLLVMIR driver LLVMConversionTarget typeConverter
     populateAffineToStdConversionPatterns
     populateSCFToControlFlowConversionPatterns
     populateArithmeticToLLVMConversionPatterns
     populateMemRefToLLVMConversionPatterns
     populateFuncToLLVMConversionPatterns verify translateModuleToLLVMIR)
  (only parsing).

(** X12: a module that [lowerFromCIRToLLVMIR] returns is the translation of the
    module as the pass manager left it, after a run in which the three
    passes were executed in order and none signalled failure, and after
    that module passed verification. *)
Theorem lowering_returns_translation (theModule : Operation)
    (p : option LLVMModule) :
  lower theModule = Returned p →
  ∃ run llvmModule,
    PassManager_run pm theModule = Some run ∧
    plState run = Succeeded ∧
    plExecuted run =
      [("cir-to-func", false); ("cir-to-memref", false);
       ("cir-to-llvm", false)] ∧
    verify (plModule run) = success ∧
    translateModuleToLLVMIR (plModule run) = Some llvmModule ∧
    p = Some llvmModule.
Proof.
  unfold lowerFromCIRToLLVMIR. cbv zeta.
  destruct (PassManager_run pm theModule) as [run|] eqn:Hrun; [|discriminate].
  destruct (plState run) eqn:Hs; cbn; try discriminate.
  destruct (verify (plModule run)) eqn:Hv; cbn; [|discriminate].
  destruct (translateModuleToLLVMIR (plModule run)) as [l|] eqn:Ht;
    [|discriminate].
  intros [= <-]. exists run, l. split_and!; try done.
  apply PassManager_run_invariant in Hrun.
  unfold pipelineInvariant in Hrun. rewrite Hs in Hrun. exact Hrun.
Qed.

(** X13: the message of the fatal error tells which step failed: the message
    about the pass manager appears exactly when the run of the passes did
    not succeed, the one about verification exactly when the run succeeded
    and the module did not verify, and the one about the translation
    exactly when both went well and the translation came back null. *)
Theorem lowering_fatal_message (theModule : Operation) (msg : string) :
  lower theModule = FatalError msg →
  ∃ run,
    PassManager_run pm theModule = Some run ∧
    (msg = "The pass manager failed to lower CIR to LLVMIR dialect!" ↔
     plState run ≠ Succeeded) ∧
    (msg = "Verification of the final LLVMIR dialect failed!" ↔
     plState run = Succeeded ∧ verify (plModule run) = failure) ∧
    (msg = "Lowering from LLVMIR dialect to llvm IR failed!" ↔
     plState run = Succeeded ∧ verify (plModule run) = success ∧
     translateModuleToLLVMIR (plModule run) = None).
Proof.
  unfold lowerFromCIRToLLVMIR. cbv zeta.
  destruct (PassManager_run pm theModule) as [run|] eqn:Hrun; [|discriminate].
  intros H. exists run. split; [done|].
  destruct (plState run) eqn:Hs; cbn in H;
    try (injection H as <-;
         split_and!; (split; [intros; try done; discriminate
                             | intros; try done; intuition discriminate])).
  destruct (verify (plModule run)) eqn:Hv; cbn in H.
  - destruct (translateModuleToLLVMIR (plModule run)) as [l|] eqn:Ht;
      [discriminate|].
    injection H as <-.
    split_and!; (split; [intros; try done; discriminate
                        | intros; try done; intuition discriminate]).
  - injection H as <-.
    split_and!; (split; [intros; try done; discriminate
                        | intros; try done; intuition discriminate]).
Qed.
End LoweringFacts.

Lemma lowering_returns_translation_witness :
  ∃ run,
    PassManager_run (Samples.pm (specDriver 8)) Samples.module_empty
      = Some run ∧
    plState run = Succeeded.
Proof.
  destruct (lowering_returns_translation (specDriver 8) Samples.llvmTarget tt
              Samples.noPatterns Samples.noPatterns Samples.noTypedPatterns
              Samples.memrefPatterns Samples.noTypedPatterns (λ _, success)
              (λ m, Some m) Samples.module_empty (Some Samples.module_empty))
    as (run & l & Hrun & Hs & _); [vm_compute; reflexivity|].
  exists run. split; assumption.
Defined.

Lemma lowering_fatal_message_witness :
  ∃ run,
    PassManager_run (Samples.pm (specDriver 8)) Samples.module_stray
      = Some run ∧
    plState run ≠ Succeeded.
Proof.
  destruct (lowering_fatal_message (specDriver 8) Samples.llvmTarget tt
              Samples.noPatterns Samples.noPatterns Samples.noTypedPatterns
              Samples.memrefPatterns Samples.noTypedPatterns (λ _, success)
              (λ m, Some m) Samples.module_stray
              "The pass manager failed to lower CIR to LLVMIR dialect!")
    as (run & Hrun & Hm & _); [vm_compute; reflexivity|].
  exists run. split; [exact Hrun | by apply Hm].
Defined.

(** ** cir-tool *)

Lemma registerPass_Some allocator (passes passes' : gmap string Pass) :
  cir_tool.registerPass allocator passes = Some passes' →
  getArgument (allocator tt) ≠ "" ∧
  passes !! getArgument (allocator tt) = None ∧
  passes' = <[getArgument (allocator tt) := allocator tt]> passes ∧
  passes ⊆ passes'.
Proof.
  unfold cir_tool.registerPass. cbv zeta.
  destruct (String.eqb_spec (getArgument (allocator tt)) "") as [E|E];
    [discriminate|].
  destruct (passes !! getArgument (allocator tt)) eqn:Hl; [discriminate|].
  intros [= <-]. split_and!; [done..|]. by apply insert_subseteq.
Qed.

Section ToolFacts.
Context (driver : ConversionDriver).
Context (LLVMConversionTarget : ConversionTarget).
Context {LLVMTypeConverter : Type} (typeConverter : LLVMTypeConverter).
Context (populateAffineToStdConversionPatterns
         populateSCFToControlFlowConversionPatterns
           : RewritePatternSet → RewritePatternSet).
Context (populateArithmeticToLLVMConversionPatterns
         populateMemRefToLLVMConversionPatterns
         populateFuncToLLVMConversionPatterns
           : LLVMTypeConverter → RewritePatternSet → RewritePatternSet).
Context (createLifetimeCheckPass createMergeCleanupsPass : Pass).
Context (registerTransformsPasses
           : gmap string Pass → option (gmap string Pass)).
Context (MlirOptMain
           : list string → string → cir_tool.DialectRegistry → bool →
             gmap string Pass → LogicalResult).

Local Abbreviation llvmPass :=
  (createConvertCIRToLLVMPass driver LLVMConversionTarget typeConverter
     populateAffineToStdConversionPatterns
     populateSCFToControlFlowConversionPatterns
     populateArithmeticToLLVMConversionPatterns
     populateMemRefToLLVMConversionPatterns
     populateFuncToLLVMConversionPatterns)
  (only parsing).
Local Abbreviation main_passes :=
  (cir_tool.main_passes driver LLVMConversionTarget typeConverter
     populateAffineToStdConversionPatterns
     populateSCFToControlFlowConversionPatterns
     populateArithmeticToLLVMConversionPatterns
     populateMemRefToLLVMConversionPatterns
     populateFuncToLLVMConversionPatterns createLifetimeCheckPass
     createMergeCleanupsPass registerTransformsPasses)
  (only parsing).
Local Abbreviation main :=
  (cir_tool.main driver LLVMConversionTarget typeConverter
     populateAffineToStdConversionPatterns
     populateSCFToControlFlowConversionPatterns
     populateArithmeticToLLVMConversionPatterns
     populateMemRefToLLVMConversionPatterns
     populateFuncToLLVMConversionPatterns createLifetimeCheckPass
     createMergeCleanupsPass registerTransformsPasses MlirOptMain)
  (only parsing).

(** X14: when the registration of the standard transformation passes only adds
    to the passes on offer and [main] of cir-tool comes back with an exit
    code, the three lowering passes are on offer to [MlirOptMain] under
    [cir-to-func], [cir-to-llvm] and [cir-to-memref]; the two passes from
    elsewhere have arguments that are not empty, differ from these three
    and from each other; and the exit code is 0 when [MlirOptMain] reports
    success and 1 when it reports failure. *)
Theorem cir_tool_main_offers_lowering_passes (argv : list string) (code : Z) :
  (∀ passes passes',
     registerTransformsPasses passes = Some passes' → passes ⊆ passes') →
  main argv = Some code →
  ∃ passes,
    main_passes = Some passes ∧
    passes !! "cir-to-func" = Some (createConvertCIRToFuncPass driver) ∧
    passes !! "cir-to-llvm" = Some llvmPass ∧
    passes !! "cir-to-memref" = Some (createConvertCIRToMemRefPass driver) ∧
    (getArgument createLifetimeCheckPass
       ∉ [""; "cir-to-func"; "cir-to-llvm"; "cir-to-memref"]) ∧
    (getArgument createMergeCleanupsPass
       ∉ [""; "cir-to-func"; "cir-to-llvm"; "cir-to-memref";
          getArgument createLifetimeCheckPass]) ∧
    code =
      (if failed (MlirOptMain argv
                    ("Clang IR analysis and optimization tool"
                     +:+ String "010"%char "")
                    ["builtin"; "arith"; "cir"; "memref"; "llvm"] true passes)
       then 1%Z else 0%Z).
Proof.
  intros Hmono. unfold cir_tool.main. cbv zeta.
  destruct main_passes as [passes|] eqn:Hp; [|discriminate].
  cbn [mbind option_bind]. intros [= <-].
  exists passes. split; [done|].
  unfold cir_tool.main_passes in Hp.
  destruct (cir_tool.registerPass (λ _, createConvertCIRToFuncPass driver) ∅)
    as [R1|] eqn:H1; [|discriminate]. cbn [mbind option_bind] in Hp.
  destruct (cir_tool.registerPass (λ _, llvmPass) R1)
    as [R2|] eqn:H2; [|discriminate]. cbn [mbind option_bind] in Hp.
  destruct (cir_tool.registerPass (λ _, createConvertCIRToMemRefPass driver)
              R2) as [R3|] eqn:H3; [|discriminate].
  cbn [mbind option_bind] in Hp.
  destruct (cir_tool.registerPass (λ _, createLifetimeCheckPass) R3)
    as [R4|] eqn:H4; [|discriminate]. cbn [mbind option_bind] in Hp.
  destruct (cir_tool.registerPass (λ _, createMergeCleanupsPass) R4)
    as [R5|] eqn:H5; [|discriminate]. cbn [mbind option_bind] in Hp.
  apply Hmono in Hp.
  apply registerPass_Some in H1 as (_ & _ & E1 & _).
  apply registerPass_Some in H2 as (_ & _ & E2 & S2).
  apply registerPass_Some in H3 as (_ & _ & E3 & S3).
  apply registerPass_Some in H4 as (N4 & L4 & E4 & S4).
  apply registerPass_Some in H5 as (N5 & L5 & E5 & S5).
  cbn [getArgument createConvertCIRToFuncPass createConvertCIRToLLVMPass
       createConvertCIRToMemRefPass] in E1, E2, E3.
  assert (R3 !! "cir-to-func" = Some (createConvertCIRToFuncPass driver)) as F.
  { eapply lookup_weaken; [|exact S3]. eapply lookup_weaken; [|exact S2].
    rewrite E1. apply lookup_insert_eq. }
  assert (R3 !! "cir-to-llvm" = Some llvmPass) as L.
  { eapply lookup_weaken; [|exact S3]. rewrite E2. apply lookup_insert_eq. }
  assert (R3 !! "cir-to-memref" = Some (createConvertCIRToMemRefPass driver))
    as M.
  { rewrite E3. apply lookup_insert_eq. }
  assert (R4 !! getArgument createLifetimeCheckPass
          = Some createLifetimeCheckPass) as LC.
  { rewrite E4. apply lookup_insert_eq. }
  split_and!.
  - eapply lookup_weaken; [|exact Hp]. eapply lookup_weaken; [|exact S5].
    eapply lookup_weaken; [|exact S4]. exact F.
  - eapply lookup_weaken; [|exact Hp]. eapply lookup_weaken; [|exact S5].
    eapply lookup_weaken; [|exact S4]. exact L.
  - eapply lookup_weaken; [|exact Hp]. eapply lookup_weaken; [|exact S5].
    eapply lookup_weaken; [|exact S4]. exact M.
  - rewrite !elem_of_cons, elem_of_nil.
    intros [E|[E|[E|[E|[]]]]]; [done|..]; rewrite E in L4; congruence.
  - rewrite !elem_of_cons, elem_of_nil.
    intros [E|[E|[E|[E|[E|[]]]]]]; [done|..]; rewrite E in L5;
      [ rewrite (lookup_weaken _ _ _ _ F S4) in L5
      | rewrite (lookup_weaken _ _ _ _ L S4) in L5
      | rewrite (lookup_weaken _ _ _ _ M S4) in L5
      | rewrite LC in L5 ]; discriminate.
  - reflexivity.
Qed.
End ToolFacts.

Lemma cir_tool_main_offers_lowering_passes_witness :
  ∃ passes : gmap string Pass,
    passes !! "cir-to-func"
      = Some (createConvertCIRToFuncPass Samples.failingDriver) ∧
    passes !! "cir-to-memref"
      = Some (createConvertCIRToMemRefPass Samples.failingDriver).
Proof.
  destruct (cir_tool_main_offers_lowering_passes Samples.failingDriver
              Samples.llvmTarget tt Samples.noPatterns Samples.noPatterns
              Samples.noTypedPatterns Samples.memrefPatterns
              Samples.noTypedPatterns Inputs.lifetimeCheck
              Inputs.mergeCleanups Some (λ _ _ _ _ _, success) [] 0%Z)
    as (passes & _ & Hf & _ & Hm & _);
    [by intros ? ? [= ->] | vm_compute; reflexivity | ].
  exists passes. split; assumption.
Defined.
